(** * Open Bus Stride fetch algorithm: a shallow embedding of
      [GetStrideDataDurationAlgo.processAlgorithm] (stride_locations.py)

    The algorithm builds a query-parameter dictionary, issues one GET,
    decodes the JSON answer and writes one feature per record into a sink.
    Everything the host application supplies (the Python evaluator, the
    coordinate transforms, Qt's date arithmetic, the network reply, the sink
    and the cancellation flag) is an explicit input; everything the algorithm
    does to the outside world is recorded, in order, in a trace of events.

    Python's [float] is IEEE-754 binary64; it is modelled with the Standard
    Library's [SpecFloat] at precision 53 and maximal exponent 1024, so the
    progress value [int((i + 1) / total * 100)] is computed bit for bit. *)

From Stdlib Require Import ZArith List String Bool Lia Sorted.
From Stdlib Require Import Floats.SpecFloat Numbers.DecimalString.
Import ListNotations.

Open Scope string_scope.
Open Scope Z_scope.

(** ** Python values *)

(** The values [json.loads] and [eval] hand to the algorithm. A dictionary
    keeps its items in insertion order, as Python's [dict] does. Text is a
    [string], a sequence of bytes: the text in UTF-8. A Python [str] that has
    no UTF-8 form (a lone surrogate), the only text on which [urlencode]
    raises, is not a value of this type. *)
#[warnings="-register-all"]
Inductive pyval : Type :=
| PNone
| PBool (b : bool)
| PInt (z : Z)
| PFloat (f : spec_float)
| PStr (s : string)
| PList (l : list pyval)
| PDict (items : list (pyval * pyval)).

(** ** Exceptions and results *)

(** The five user-visible failures raised as [QgsProcessingException]. *)
Inductive failure : Type :=
| InvalidParameterFormat
| NetworkRequestFailed (errorString : string)
| HttpStatusError (status_code : option Z)
| ResponseParseError (why : string)
| InvalidOutput.

Inductive exn : Type :=
| QgsProcessingException (f : failure)
| SyntaxError
| TypeError
| ValueError
| OverflowError
| ZeroDivisionError
| AttributeError
| JSONDecodeError (why : string)
| QgsCsException
| OtherError (name : string).

Inductive result (A : Type) : Type :=
| Ok (a : A)
| Raise (e : exn).
Arguments Ok {A} a.
Arguments Raise {A} e.

Definition rbind {A B} (c : result A) (k : A -> result B) : result B :=
  match c with
  | Ok a => k a
  | Raise e => Raise e
  end.

Notation "'try!' x ':=' c 'in' k" := (rbind c (fun x => k))
  (at level 10, x name, c at level 100, k at level 200).

(** [str(n)] for an [int]. *)
Definition py_str_int (z : Z) : string := NilZero.string_of_int (Z.to_int z).

(** The text of each [QgsProcessingException] of the source. *)
Definition failure_message (f : failure) : string :=
  match f with
  | InvalidParameterFormat => "Invalid format for parameters."
  | NetworkRequestFailed e => "Network request failed: " ++ e
  | HttpStatusError (Some c) =>
      "API request failed with HTTP status code " ++ py_str_int c
  | HttpStatusError None => "API request failed with HTTP status code None"
  | ResponseParseError e => "Failed to parse JSON response: " ++ e
  | InvalidOutput => "Invalid output specified."
  end.

(** ** Python's floating-point arithmetic (binary64) *)

Module PyFloat.

Definition prec : Z := 53.
Definition emax : Z := 1024.

Definition is_finite (f : spec_float) : bool :=
  match f with
  | S754_zero _ | S754_finite _ _ _ => true
  | S754_infinity _ | S754_nan => false
  end.

(** An integer read as an exact, not yet rounded, binary number. *)
Definition exact (z : Z) : spec_float :=
  match z with
  | Z0 => S754_zero false
  | Zpos p => S754_finite false p 0
  | Zneg p => S754_finite true p 0
  end.

(** [float(n)] for an [int]: round to nearest even, [OverflowError] past
    the largest double. *)
Definition of_int (z : Z) : result spec_float :=
  let f := binary_normalize prec emax z 0 false in
  if is_finite f then Ok f else Raise OverflowError.

(** [a / b] on two [int]s: the correctly rounded quotient. *)
Definition truediv (a b : Z) : result spec_float :=
  if b =? 0 then Raise ZeroDivisionError
  else
    let q := SFdiv prec emax (exact a) (exact b) in
    if is_finite q then Ok q else Raise OverflowError.

(** [x * n] for a [float] and an [int]: the [int] is converted first. *)
Definition mul_int (x : spec_float) (n : Z) : result spec_float :=
  try! y := of_int n in Ok (SFmul prec emax x y).

(** [int(x)]: truncation towards zero. *)
Definition to_int (x : spec_float) : result Z :=
  match x with
  | S754_zero _ => Ok 0
  | S754_finite s m e =>
      let a := Z.shiftl (Zpos m) e in
      Ok (if s then - a else a)
  | S754_infinity _ => Raise OverflowError
  | S754_nan => Raise ValueError
  end.

End PyFloat.

(** [int((i + 1) / total * 100)], with [i] the zero-based index. *)
Definition progress_percent (i : nat) (total : Z) : result Z :=
  try! q := PyFloat.truediv (Z.of_nat i + 1) total in
  try! p := PyFloat.mul_int q 100 in
  PyFloat.to_int p.

(** ** Dictionaries *)

(** Does a stored key equal the [str] key [k]? A [str] equals no value of
    another type. *)
Definition key_is (k : string) (key : pyval) : bool :=
  match key with
  | PStr s => String.eqb s k
  | _ => false
  end.

(** [d.get(k)] without the default: [None] when the key is missing. *)
Fixpoint dict_lookup (k : string) (items : list (pyval * pyval)) : option pyval :=
  match items with
  | [] => None
  | (key, v) :: rest => if key_is k key then Some v else dict_lookup k rest
  end.

(** [d[k] = v]: an existing key keeps its place, a new one goes last. *)
Fixpoint dict_set (k : string) (v : pyval) (items : list (pyval * pyval))
  : list (pyval * pyval) :=
  match items with
  | [] => [(PStr k, v)]
  | (key, w) :: rest =>
      if key_is k key then (key, v) :: rest else (key, w) :: dict_set k v rest
  end.

(** [item.get(k)]: [AttributeError] on anything that is not a [dict]. *)
Definition py_get (item : pyval) (k : string) : result pyval :=
  match item with
  | PDict items =>
      match dict_lookup k items with
      | Some v => Ok v
      | None => Ok PNone
      end
  | _ => Raise AttributeError
  end.

Definition is_none (v : pyval) : bool :=
  match v with
  | PNone => true
  | _ => false
  end.

(** ** The schema *)

(** The [QVariant] type tags of the output fields. *)
Inductive qtype : Type := LongLong | DateTime | Double | Int | String_.

Definition qtype_eqb (a b : qtype) : bool :=
  match a, b with
  | LongLong, LongLong | DateTime, DateTime | Double, Double
  | Int, Int | String_, String_ => true
  | _, _ => false
  end.

Definition field_definitions : list (string * qtype) :=
  [ ("id", LongLong); ("snapshot_id", LongLong); ("ride_stop_id", LongLong);
    ("recorded_at", DateTime); ("lon", Double); ("lat", Double);
    ("bearing", Int); ("velocity", Int); ("dist_from_start", Int);
    ("dist_from_stop", Double); ("snapshot_str", String_); ("route_id", Int);
    ("line_ref", Int); ("operator_ref", Int); ("ride_id", LongLong);
    ("journey_ref", String_); ("scheduled_start", DateTime);
    ("vehicle_ref", String_) ].

Definition key_map : list (string * string) :=
  [ ("siri_snapshot_id", "snapshot_id"); ("siri_ride_stop_id", "ride_stop_id");
    ("recorded_at_time", "recorded_at");
    ("distance_from_journey_start", "dist_from_start");
    ("distance_from_siri_ride_stop_meters", "dist_from_stop");
    ("siri_snapshot__snapshot_id", "snapshot_str"); ("siri_route__id", "route_id");
    ("siri_route__line_ref", "line_ref");
    ("siri_route__operator_ref", "operator_ref"); ("siri_ride__id", "ride_id");
    ("siri_ride__journey_ref", "journey_ref");
    ("siri_ride__scheduled_start_time", "scheduled_start");
    ("siri_ride__vehicle_ref", "vehicle_ref") ].

(** [next((k for k, v in key_map.items() if v == name), name)] *)
Fixpoint first_key_for (name : string) (km : list (string * string)) : option string :=
  match km with
  | [] => None
  | (k, v) :: rest => if String.eqb v name then Some k else first_key_for name rest
  end.

Definition original_key (name : string) : string :=
  match first_key_for name key_map with
  | Some k => k
  | None => name
  end.

(** An attribute value handed to [setAttributes]: the null [QVariant()],
    the [QDateTime] that [QDateTime.fromString(s, Qt.ISODate)] returns (an
    invalid one when [s] is not an ISO date), or the upstream value as is. *)
Inductive qvariant : Type :=
| QNull
| QDateTimeFromString (s : string)
| QValue (v : pyval).

(** [QDateTime.fromString(val, Qt.ISODate)]: the binding takes a [str] only
    and raises [TypeError] on any other value. *)
Definition QDateTime_fromString (val : pyval) : result qvariant :=
  match val with
  | PStr s => Ok (QDateTimeFromString s)
  | _ => Raise TypeError
  end.

(** The body of the inner loop for one field. *)
Definition attribute_for (item : pyval) (field : string * qtype) : result qvariant :=
  try! val := py_get item (original_key (fst field)) in
  if is_none val then Ok QNull
  else if qtype_eqb (snd field) DateTime then QDateTime_fromString val
  else Ok (QValue val).

(** The inner loop: one attribute per field, in order, stopping at the first
    exception. *)
Fixpoint attributes_for (item : pyval) (fields : list (string * qtype))
  : result (list qvariant) :=
  match fields with
  | [] => Ok []
  | field :: rest =>
      try! a := attribute_for item field in
      try! others := attributes_for item rest in
      Ok (a :: others)
  end.

(** ** The host application *)

Record QgsRectangle : Type :=
  { xMinimum : spec_float; xMaximum : spec_float;
    yMinimum : spec_float; yMaximum : spec_float }.

Record QgsPointXY : Type := { px : spec_float; py : spec_float }.

Record QDateTime : Type := { isValid : bool; msecsSinceEpoch : Z }.

(** What the algorithm hands over for the request: the text given to
    [QUrl], which is [base_url] followed by the path, and the parameter
    dictionary given to [urlencode] and then to [setQuery]. The record stops
    there: how [QUrl] reads that text (a ['?'] or ['#'] in the path opens a
    query or a fragment of its own) and the address that results are Qt's
    and are not described. *)
Record url : Type := { url_path : string; url_query : list (pyval * pyval) }.

Record Reply : Type :=
  { reply_error : option string;     (* [errorString()] when [error()] is set *)
    status_code : option Z;          (* the HttpStatusCodeAttribute *)
    body : result pyval }.           (* [json.loads(bytes(...).decode('utf-8'))] *)

(** The library functions the algorithm calls. *)
Record Host : Type :=
  { eval : string -> result pyval;
    float_of_str : string -> option spec_float;   (* [None]: [ValueError] *)
    transform_extent : string -> QgsRectangle -> result QgsRectangle;
    transform_point : QgsPointXY -> result QgsPointXY;
    addSecs : QDateTime -> Z -> QDateTime;
    toString : QDateTime -> string -> string }.

(** One invocation: the resolved parameters, the network's answer to the
    request, the sink ([None] when [parameterAsSink] returns no sink, else its
    destination id) and the answers of [feedback.isCanceled()], indexed by
    the loop iteration that asks. *)
Record Inputs : Type :=
  { api_path : string;
    params_str : string;
    extent : option QgsRectangle;    (* [None]: [extent.isNull()] *)
    extent_crs : string;
    start_time : QDateTime;
    duration_minutes : Z;
    network : url -> Reply;
    sink : option string;
    isCanceled : nat -> bool }.

(** ** Effects *)

Record feature : Type :=
  { geometry : option QgsPointXY; attributes : list qvariant }.

(** The messages of [feedback.pushInfo], each with the value it
    interpolates: 'Filtering from start time: ...', 'Calculated end time:
    ...', 'Requesting data from: ...', 'Response did not contain a list of
    items or was empty.' and 'Processing ... features...'. *)
Inductive notice : Type :=
| FilteringFrom (t : pyval)
| CalculatedEnd (t : pyval)
| RequestingFrom (u : url)
| NoItems
| ProcessingFeatures (total : Z).

Inductive event : Type :=
| pushInfo (n : notice)
| manager_get (u : url)
| reply_deleteLater
| parameterAsSink
| addFeature (f : feature)
| setProgress (p : Z).

(** A computation: the events it caused, in order, and its result. *)
Definition M (A : Type) : Type := (list event * result A)%type.

Definition ret {A} (a : A) : M A := ([], Ok a).
Definition raise {A} (e : exn) : M A := ([], Raise e).
Definition lift {A} (r : result A) : M A := ([], r).
Definition emit (ev : event) : M unit := ([ev], Ok tt).

Definition bind {A B} (c : M A) (k : A -> M B) : M B :=
  match c with
  | (t, Ok a) => let (t', r) := k a in ((t ++ t')%list, r)
  | (t, Raise e) => (t, Raise e)
  end.

Declare Scope run_scope.
Delimit Scope run_scope with run.
Notation "x <- c ;; k" := (bind c (fun x => k))
  (at level 61, c at next level, right associativity) : run_scope.
Notation "c ;; k" := (bind c (fun _ => k))
  (at level 61, right associativity) : run_scope.
Open Scope run_scope.

(** ** The algorithm *)

Definition base_url : string := "https://open-bus-stride-api.hasadna.org.il".
Definition iso_format : string := "yyyy-MM-ddTHH:mm:ss.zzz'Z'".

(** What the geometry block leaves behind: [continue], or the feature's
    geometry (none when a coordinate is missing). *)
Inductive geometry_step : Type :=
| Continue
| Geometry (g : option QgsPointXY).

Section Algorithm.

Variable h : Host.

(** [float(v)] *)
Definition py_float (v : pyval) : result spec_float :=
  match v with
  | PFloat f => Ok f
  | PInt z => PyFloat.of_int z
  | PBool b => PyFloat.of_int (if b then 1 else 0)
  | PStr s =>
      match float_of_str h s with
      | Some f => Ok f
      | None => Raise ValueError
      end
  | PNone | PList _ | PDict _ => Raise TypeError
  end.

(** The [try] block of the loop body. *)
Definition point_of (lon lat : pyval) : result QgsPointXY :=
  try! x := py_float lon in
  try! y := py_float lat in
  transform_point h {| px := x; py := y |}.

(** Lines 219-225. *)
Definition geometry_for (item : pyval) : result geometry_step :=
  try! lon := py_get item "lon" in
  if is_none lon then Ok (Geometry None)
  else
    try! lat := py_get item "lat" in
    if is_none lat then Ok (Geometry None)
    else
      match point_of lon lat with
      | Ok p => Ok (Geometry (Some p))
      | Raise ValueError | Raise TypeError => Ok Continue
      | Raise e => Raise e
      end.

Variable inp : Inputs.

(** Lines 215-242: the loop over [enumerate(data)], from index [i] on. *)
Fixpoint emit_loop (total : Z) (i : nat) (items : list pyval) : M unit :=
  match items with
  | [] => ret tt
  | item :: rest =>
      if isCanceled inp i then ret tt
      else
        g <- lift (geometry_for item) ;;
        match g with
        | Continue => emit_loop total (S i) rest
        | Geometry geom =>
            attrs <- lift (attributes_for item field_definitions) ;;
            emit (addFeature {| geometry := geom; attributes := attrs |}) ;;
            p <- lift (progress_percent i total) ;;
            emit (setProgress p) ;;
            emit_loop total (S i) rest
        end
  end.

(** Lines 113-119. *)
Definition parse_params : result (list (pyval * pyval)) :=
  if String.eqb (params_str inp) "" then Ok []
  else
    match eval h (params_str inp) with
    | Ok (PDict items) => Ok items
    | Ok _ | Raise SyntaxError | Raise TypeError =>
        Raise (QgsProcessingException InvalidParameterFormat)
    | Raise e => Raise e
    end.

(** Lines 121-128. *)
Definition add_extent (params : list (pyval * pyval))
  : result (list (pyval * pyval)) :=
  match extent inp with
  | None => Ok params
  | Some r =>
      try! w := transform_extent h (extent_crs inp) r in
      let params := dict_set "lon__greater_or_equal" (PFloat (xMinimum w)) params in
      let params := dict_set "lon__lower_or_equal" (PFloat (xMaximum w)) params in
      let params := dict_set "lat__greater_or_equal" (PFloat (yMinimum w)) params in
      let params := dict_set "lat__lower_or_equal" (PFloat (yMaximum w)) params in
      Ok params
  end.

(** Lines 130-138. *)
Definition add_times (params : list (pyval * pyval)) : M (list (pyval * pyval)) :=
  if isValid (start_time inp) then
    let from := PStr (toString h (start_time inp) iso_format) in
    let params := dict_set "recorded_at_time_from" from params in
    emit (pushInfo (FilteringFrom from)) ;;
    if 0 <? duration_minutes inp then
      let end_time := addSecs h (start_time inp) (duration_minutes inp * 60) in
      let to := PStr (toString h end_time iso_format) in
      let params := dict_set "recorded_at_time_to" to params in
      emit (pushInfo (CalculatedEnd to)) ;;
      ret params
    else ret params
  else ret params.

(** Lines 113-138: the query parameters. *)
Definition build_params : M (list (pyval * pyval)) :=
  params <- lift parse_params ;;
  params <- lift (add_extent params) ;;
  add_times params.

(** Lines 157-170: the [try] block around the reply. *)
Definition read_reply (r : Reply) : result pyval :=
  match reply_error r with
  | Some e => Raise (QgsProcessingException (NetworkRequestFailed e))
  | None =>
      match status_code r with
      | Some 200 =>
          match body r with
          | Raise (JSONDecodeError why) =>
              Raise (QgsProcessingException (ResponseParseError why))
          | other => other
          end
      | other => Raise (QgsProcessingException (HttpStatusError other))
      end
  end.

(** Lines 140-174: one GET; the reply is released on every path. The
    events carry the request as the record above has it. *)
Definition fetch (params : list (pyval * pyval)) : M pyval :=
  let u := {| url_path := base_url ++ api_path inp; url_query := params |} in
  emit (pushInfo (RequestingFrom u)) ;;
  emit (manager_get u) ;;
  let answer := read_reply (network inp u) in
  emit reply_deleteLater ;;
  lift answer.

(** Lines 203-244: the sink and the loop; the result is [dest_id]. *)
Definition emit_features (data : list pyval) : M (option string) :=
  emit parameterAsSink ;;
  match sink inp with
  | None => raise (QgsProcessingException InvalidOutput)
  | Some dest_id =>
      let total := Z.of_nat (List.length data) in
      emit (pushInfo (ProcessingFeatures total)) ;;
      emit_loop total 0 data ;;
      ret (Some dest_id)
  end.

(** The whole of [processAlgorithm]; the result is the value stored under
    [OUTPUT]. *)
Definition processAlgorithm : M (option string) :=
  params <- build_params ;;
  data <- fetch params ;;
  match data with
  | PList (item :: rest) => emit_features (item :: rest)
  | _ => emit (pushInfo NoItems) ;; ret None
  end.

End Algorithm.

(** ** A concrete host, for running the algorithm on examples *)

Module Demo.

Import Ascii.

Definition digit_of (c : ascii) : option Z :=
  let n := Z.of_nat (nat_of_ascii c) in
  if (48 <=? n) && (n <=? 57) then Some (n - 48) else None.

(** Reads the leading decimal digits of [s] into [acc]; also returns how
    many there were and what follows them. *)
Fixpoint read_digits (acc : Z) (count : Z) (s : string) : Z * Z * string :=
  match s with
  | String c rest =>
      match digit_of c with
      | Some d => read_digits (10 * acc + d) (count + 1) rest
      | None => (acc, count, s)
      end
  | EmptyString => (acc, count, s)
  end.

Definition read_sign (s : string) : bool * string :=
  match s with
  | String "-" rest => (true, rest)
  | String "+" rest => (false, rest)
  | _ => (false, s)
  end.

(** The decimal exponent after the mantissa: nothing, or [e] or [E], an
    optional sign and at least one digit, up to the end of the text. *)
Definition read_exponent (s : string) : option Z :=
  match s with
  | EmptyString => Some 0
  | String c rest =>
      if (Ascii.eqb c "e" || Ascii.eqb c "E")%bool then
        let '(neg, rest) := read_sign rest in
        match read_digits 0 0 rest with
        | (n, count, EmptyString) =>
            if 0 <? count then Some (if neg then - n else n) else None
        | _ => None
        end
      else None
  end.

(** [m * 10 ^ e10] rounded to the nearest double. *)
Definition scale10 (neg : bool) (m e10 : Z) : spec_float :=
  let signed (z : Z) := if neg then - z else z in
  match m with
  | Z0 => S754_zero neg
  | _ =>
      if 0 <=? e10
      then binary_normalize PyFloat.prec PyFloat.emax (signed (m * 10 ^ e10)) 0 neg
      else SFdiv PyFloat.prec PyFloat.emax
             (PyFloat.exact (signed m)) (PyFloat.exact (10 ^ (- e10)))
  end.

(** [float(s)] on the plain decimal literals: sign, digits, fraction,
    exponent. The other spellings Python reads (surrounding blanks,
    underscores, [inf], [nan]) are left out: this parser rejects them. *)
Definition decimal_float (s : string) : option spec_float :=
  let '(neg, s) := read_sign s in
  let '(whole, n_whole, s) := read_digits 0 0 s in
  let '(mantissa, n_frac, s) :=
    match s with
    | String "." rest => read_digits whole 0 rest
    | _ => (whole, 0, s)
    end in
  if 0 <? n_whole + n_frac then
    match read_exponent s with
    | Some e => Some (scale10 neg mantissa (e - n_frac))
    | None => None
    end
  else None.

(** [eval] on the texts the examples use. *)
Definition literal_eval (s : string) : result pyval :=
  if String.eqb s "{'limit': 2}" then Ok (PDict [(PStr "limit", PInt 2)])
  else if String.eqb s "[1, 2]" then Ok (PList [PInt 1; PInt 2])
  else if String.eqb s "{'lon__greater_or_equal': 0}"
  then Ok (PDict [(PStr "lon__greater_or_equal", PInt 0)])
  else if String.eqb s "{bad" then Raise SyntaxError
  else Raise (OtherError "NameError").

(** The host of the examples: coordinate transforms that leave the
    coordinates alone, and a clock counted in milliseconds whose text form
    is the decimal count. *)
Definition host : Host :=
  {| eval := literal_eval;
     float_of_str := decimal_float;
     transform_extent := fun _ r => Ok r;
     transform_point := fun p => Ok p;
     addSecs := fun t s =>
       {| isValid := isValid t; msecsSinceEpoch := msecsSinceEpoch t + 1000 * s |};
     toString := fun t _ => py_str_int (msecsSinceEpoch t) |}.

Definition ok_reply (data : pyval) : Reply :=
  {| reply_error := None; status_code := Some 200; body := Ok data |}.

(** An invocation with no extent, no start time and the default duration. *)
Definition inputs (extra : string) (data : pyval) : Inputs :=
  {| api_path := "/siri_vehicle_locations/list";
     params_str := extra;
     extent := None;
     extent_crs := "EPSG:4326";
     start_time := {| isValid := false; msecsSinceEpoch := 0 |};
     duration_minutes := 5;
     network := fun _ => ok_reply data;
     sink := Some "memory:output";
     isCanceled := fun _ => false |}.

Definition double (z : Z) : spec_float :=
  binary_normalize PyFloat.prec PyFloat.emax z 0 false.

(** The same with a start time of one second past the epoch. *)
Definition timed (extra : string) (minutes : Z) : Inputs :=
  {| api_path := "/siri_vehicle_locations/list";
     params_str := extra;
     extent := None;
     extent_crs := "EPSG:4326";
     start_time := {| isValid := true; msecsSinceEpoch := 1000 |};
     duration_minutes := minutes;
     network := fun _ => ok_reply (PList []);
     sink := Some "memory:output";
     isCanceled := fun _ => false |}.

Definition box : QgsRectangle :=
  {| xMinimum := double 34; xMaximum := double 35;
     yMinimum := double 31; yMaximum := double 32 |}.

(** The same with an extent. *)
Definition boxed (extra : string) : Inputs :=
  {| api_path := "/siri_vehicle_locations/list";
     params_str := extra;
     extent := Some box;
     extent_crs := "EPSG:4326";
     start_time := {| isValid := false; msecsSinceEpoch := 0 |};
     duration_minutes := 5;
     network := fun _ => ok_reply (PList []);
     sink := Some "memory:output";
     isCanceled := fun _ => false |}.

End Demo.

(** ** Reading a trace *)

(** The features written to the sink, in order. *)
Fixpoint features_written (t : list event) : list feature :=
  match t with
  | [] => []
  | addFeature f :: rest => f :: features_written rest
  | _ :: rest => features_written rest
  end.

(** The progress values reported, in order. *)
Fixpoint progress_reported (t : list event) : list Z :=
  match t with
  | [] => []
  | setProgress p :: rest => p :: progress_reported rest
  | _ :: rest => progress_reported rest
  end.

Definition is_pushInfo (ev : event) : bool :=
  match ev with
  | pushInfo _ => true
  | _ => false
  end.

(** A value [QDateTime.fromString] accepts, or no value at all. *)
Definition text_or_null (v : option pyval) : Prop :=
  match v with
  | None | Some PNone | Some (PStr _) => True
  | Some _ => False
  end.

(** Every timestamp-typed field of the record is absent, null or text. *)
Definition timestamps_textual (items : list (pyval * pyval)) : Prop :=
  forall name, In (name, DateTime) field_definitions ->
    text_or_null (dict_lookup (original_key name) items).

(** [float(v)] is rejected with one of the two exceptions the loop handles. *)
Definition float_rejects (h : Host) (v : pyval) : Prop :=
  py_float h v = Raise ValueError \/ py_float h v = Raise TypeError.

(** The records the examples run on. *)
Module Sample.

Definition good : pyval :=
  PDict [(PStr "id", PInt 1); (PStr "lon", PStr "34.78"); (PStr "lat", PStr "32.07")].

Definition bad_lon : pyval :=
  PDict [(PStr "id", PInt 2); (PStr "lon", PStr "abc"); (PStr "lat", PStr "32.07")].

Definition numeric_time : pyval :=
  PDict [(PStr "lon", PNone); (PStr "recorded_at_time", PInt 5)].

Definition odd_time : pyval :=
  PDict [(PStr "lon", PNone); (PStr "recorded_at_time", PStr "yesterday")].

End Sample.

(** ** Rounding, in exact arithmetic *)

(** The exponent of the last binary digit of a double of magnitude
    [2 ^ e]. *)
Abbreviation fexp64 := (fexp 53 1024).

(** What the progress value is measured against: quantities are counted in
    whole units of [2 ^ -1120], so that every intermediate result of
    [int((i + 1) / total * 100)] is an integer, and rounding is a function
    on fractions of integers. *)
Module Round.

(** The integer nearest to [N / D], ties to the even one. *)
Definition nearest_even (N D : Z) : Z :=
  let q := N / D in
  match 2 * (N mod D) ?= D with
  | Lt => q
  | Eq => if Z.even q then q else q + 1
  | Gt => q + 1
  end.

(** [P / Q], a quantity counted in units of [2 ^ -1120], rounded to 53
    significant bits and to a multiple of [2 ^ 46] units, which is
    [2 ^ -1074], the smallest positive double. *)
Definition round53 (P Q : Z) : Z :=
  let s := Z.max (Zdigits2 (P / Q) - 53) 46 in
  nearest_even P (Q * 2 ^ s) * 2 ^ s.

(** A non-negative double counted in units of [2 ^ -1120]. *)
Definition scaled (f : spec_float) : Z :=
  match f with
  | S754_finite false m e => Zpos m * 2 ^ (e + 1120)
  | _ => 0
  end.

(** Zero or a positive double, no smaller than the smallest subnormal. *)
Definition positive_finite (f : spec_float) : Prop :=
  match f with
  | S754_zero false => True
  | S754_finite false m e => -1074 <= e
  | _ => False
  end.

(** [N / D] lies in the unit interval that starts at the mantissa of [mrs],
    at the place its round and sticky bits tell. *)
Definition located (mrs : shr_record) (N D : Z) : Prop :=
  let m := shr_m mrs in
  0 <= m /\ 0 < D /\
  match shr_r mrs, shr_s mrs with
  | false, false => N = m * D
  | false, true => m * D < N /\ 2 * (N - m * D) < D
  | true, false => 2 * (N - m * D) = D
  | true, true => D < 2 * (N - m * D) /\ N < (m + 1) * D
  end.

(** The percentage in exact arithmetic with the two roundings. *)
Definition percent_spec (a n : Z) : Z :=
  round53 (round53 (a * 2 ^ 1120) n * 100) 1 / 2 ^ 1120.

End Round.
Import Round.

(** ** The protocol of a run *)

Definition is_manager_get (ev : event) : bool :=
  match ev with
  | manager_get _ => true
  | _ => false
  end.

Definition is_reply_deleteLater (ev : event) : bool :=
  match ev with
  | reply_deleteLater => true
  | _ => false
  end.

(** The events of the emission loop. *)
Definition is_emission (ev : event) : bool :=
  match ev with
  | addFeature _ | setProgress _ => true
  | _ => false
  end.

(** How often an event of one kind occurs. *)
Definition occurrences (kind : event -> bool) (t : list event) : nat :=
  List.length (filter kind t).

(** The stage of the pipeline an event belongs to: the query, the request,
    the exchange, its release, the sink, the loop. *)
Definition stage (ev : event) : nat :=
  match ev with
  | pushInfo (FilteringFrom _) | pushInfo (CalculatedEnd _) => 0
  | pushInfo (RequestingFrom _) => 1
  | manager_get _ => 2
  | reply_deleteLater => 3
  | pushInfo NoItems | parameterAsSink => 4
  | pushInfo (ProcessingFeatures _) => 5
  | addFeature _ | setProgress _ => 6
  end%nat.

(** The three events of the network exchange. *)
Definition exchange (u : url) : list event :=
  [pushInfo (RequestingFrom u); manager_get u; reply_deleteLater].

(** [kept] is what is left of [all] after dropping some elements. *)
Inductive subseq {A : Type} : list A -> list A -> Prop :=
| subseq_nil : subseq [] []
| subseq_drop (x : A) (kept all : list A) : subseq kept all -> subseq kept (x :: all)
| subseq_keep (x : A) (kept all : list A) : subseq kept all -> subseq (x :: kept) (x :: all).

(** The feature [f] is the record [item] mapped: its geometry is what the
    geometry block left, its attributes are the record's. *)
Definition feature_of (h : Host) (item : pyval) (f : feature) : Prop :=
  geometry_for h item = Ok (Geometry (geometry f)) /\
  attributes_for item field_definitions = Ok (attributes f).

(** One report of the loop: the index of a record, the feature written for
    it and the progress value that follows. *)
Record report : Type :=
  { at_index : nat; the_feature : feature; the_value : Z }.

(** What a report leaves in the trace. *)
Definition reported (r : report) : list event :=
  [addFeature (the_feature r); setProgress (the_value r)].

(** The record at [at_index r] was mapped to the feature of [r], and the
    value of [r] is the progress due at that index. *)
Definition report_of (h : Host) (data : list pyval) (total : Z) (r : report) : Prop :=
  exists item,
    nth_error data (at_index r) = Some item /\
    feature_of h item (the_feature r) /\
    progress_percent (at_index r) total = Ok (the_value r).

(** The six keys the query builder writes. *)
Definition builder_keys : list string :=
  [ "lon__greater_or_equal"; "lon__lower_or_equal";
    "lat__greater_or_equal"; "lat__lower_or_equal";
    "recorded_at_time_from"; "recorded_at_time_to" ].

(** The names of the output fields. *)
Definition field_names : list string := map fst field_definitions.

(** More situations for the examples. *)
Module Scenario.

(** An invocation with the default parameters, the given reply and the
    given sink. *)
Definition replying (r : Reply) (s : option string) : Inputs :=
  {| api_path := "/siri_vehicle_locations/list";
     params_str := "";
     extent := None;
     extent_crs := "EPSG:4326";
     start_time := {| isValid := false; msecsSinceEpoch := 0 |};
     duration_minutes := 5;
     network := fun _ => r;
     sink := s;
     isCanceled := fun _ => false |}.

(** The request of such an invocation. *)
Definition bare_url : url :=
  {| url_path := base_url ++ "/siri_vehicle_locations/list"; url_query := [] |}.

(** A host whose coordinate transforms fail. *)
Definition failing_host : Host :=
  {| eval := Demo.literal_eval;
     float_of_str := Demo.decimal_float;
     transform_extent := fun _ _ => Raise QgsCsException;
     transform_point := fun _ => Raise QgsCsException;
     addSecs := addSecs Demo.host;
     toString := toString Demo.host |}.

(** A record whose longitude is an integer past the largest double. *)
Definition huge_lon : pyval :=
  PDict [(PStr "lon", PInt (10 ^ 400)); (PStr "lat", PStr "32.07")].

End Scenario.

(** The events of a trace come in the order of their stages. *)
Abbreviation staged := (StronglySorted (fun a b : event => (stage a <= stage b)%nat)).

(** * Properties *)

(** ** The monad *)

Lemma bind_lift_ok {A B} (a : A) (k : A -> M B) : bind (lift (Ok a)) k = k a.
Proof. unfold bind, lift. destruct (k a); reflexivity. Qed.

Lemma bind_lift_raise {A B} (e : exn) (k : A -> M B) :
  bind (lift (Raise e)) k = ([], Raise e).
Proof. reflexivity. Qed.

Lemma bind_emit {B} (ev : event) (k : unit -> M B) :
  bind (emit ev) k = (ev :: fst (k tt), snd (k tt)).
Proof. unfold bind, emit. destruct (k tt); reflexivity. Qed.

Lemma bind_fst_snd {A B} (c : M A) (k : A -> M B) :
  bind c k =
  match snd c with
  | Ok a => ((fst c ++ fst (k a))%list, snd (k a))
  | Raise e => (fst c, Raise e)
  end.
Proof.
  destruct c as [t [a | e]]; simpl; [destruct (k a) |]; reflexivity.
Qed.

(** ** Dictionaries *)

Lemma key_is_true (k : string) (key : pyval) : key_is k key = true -> key = PStr k.
Proof.
  destruct key; simpl; try discriminate.
  intros H. apply String.eqb_eq in H. now subst.
Qed.

Lemma dict_lookup_set_same (k : string) (v : pyval) (d : list (pyval * pyval)) :
  dict_lookup k (dict_set k v d) = Some v.
Proof.
  induction d as [| [key w] d IH]; simpl.
  - now rewrite String.eqb_refl.
  - destruct (key_is k key) eqn:E; simpl; rewrite E; auto.
Qed.

Lemma dict_lookup_set_other (k k' : string) (v : pyval) (d : list (pyval * pyval)) :
  k <> k' -> dict_lookup k (dict_set k' v d) = dict_lookup k d.
Proof.
  intros Hne. induction d as [| [key w] d IH]; simpl.
  - destruct (String.eqb_spec k' k); congruence.
  - destruct (key_is k' key) eqn:E'; simpl.
    + apply key_is_true in E'. subst key. simpl.
      destruct (String.eqb_spec k' k); congruence.
    + now rewrite IH.
Qed.

Create Rewrite HintDb dict.
#[local] Hint Rewrite dict_lookup_set_same : dict.
#[local] Hint Rewrite dict_lookup_set_other using discriminate : dict.

(** ** Building the query *)

Section Query.

Variable h : Host.
Variable inp : Inputs.

#[local] Abbreviation key_to := "recorded_at_time_to".
#[local] Abbreviation key_from := "recorded_at_time_from".

Lemma build_params_inv (t : list event) (params : list (pyval * pyval)) :
  build_params h inp = (t, Ok params) ->
  exists extras boxed,
    parse_params h inp = Ok extras /\
    add_extent h inp extras = Ok boxed /\
    add_times h inp boxed = (t, Ok params).
Proof.
  unfold build_params. intros H.
  destruct (parse_params h inp) as [extras | e]; [| discriminate H].
  rewrite bind_lift_ok in H.
  destruct (add_extent h inp extras) as [boxed | e] eqn:E; [| discriminate H].
  rewrite bind_lift_ok in H. exists extras, boxed. auto.
Qed.

(** The extent block touches the four bound keys only. *)
Lemma add_extent_other (k : string) (d boxed : list (pyval * pyval)) :
  add_extent h inp d = Ok boxed ->
  k <> "lon__greater_or_equal" -> k <> "lon__lower_or_equal" ->
  k <> "lat__greater_or_equal" -> k <> "lat__lower_or_equal" ->
  dict_lookup k boxed = dict_lookup k d.
Proof.
  unfold add_extent. intros H ? ? ? ?.
  destruct (extent inp) as [r |]; [| now inversion H].
  destruct (transform_extent h (extent_crs inp) r) as [w | e]; [| discriminate].
  inversion H; subst boxed; clear H.
  now rewrite !dict_lookup_set_other by assumption.
Qed.

(** The time block touches the two time keys only. *)
Lemma add_times_other (k : string) (d params : list (pyval * pyval)) (t : list event) :
  add_times h inp d = (t, Ok params) ->
  k <> key_from -> k <> key_to ->
  dict_lookup k params = dict_lookup k d.
Proof.
  unfold add_times. intros H ? ?.
  destruct (isValid (start_time inp)); [| now inversion H].
  rewrite bind_emit in H.
  destruct (0 <? duration_minutes inp).
  - rewrite bind_emit in H. inversion H; subst.
    now rewrite !dict_lookup_set_other by assumption.
  - inversion H; subst. now rewrite dict_lookup_set_other by assumption.
Qed.

(** Every event of the query builder is an informational message. *)
Lemma build_params_trace (t : list event) (r : result (list (pyval * pyval))) :
  build_params h inp = (t, r) -> forallb is_pushInfo t = true.
Proof.
  unfold build_params. intros H.
  destruct (parse_params h inp) as [extras | e]; [| now inversion H].
  rewrite bind_lift_ok in H.
  destruct (add_extent h inp extras) as [boxed | e]; [| now inversion H].
  rewrite bind_lift_ok in H. unfold add_times in H.
  destruct (isValid (start_time inp)); [| now inversion H].
  rewrite bind_emit in H.
  destruct (0 <? duration_minutes inp).
  - rewrite bind_emit in H. now inversion H.
  - now inversion H.
Qed.


(** C5. With [durationMinutes <= 0] the builder does not set
    [recorded_at_time_to]: the final parameters hold under that key what
    the extra parameters held, nothing when they held nothing, and that
    also when a valid start time sets [recorded_at_time_from]. With
    [durationMinutes > 0] and a valid start time, [recorded_at_time_to] is
    the start time plus [durationMinutes * 60] seconds, in the same format
    as [recorded_at_time_from]. *)
Theorem time_window_parameters
  (extras params : list (pyval * pyval)) (t : list event) :
  parse_params h inp = Ok extras ->
  build_params h inp = (t, Ok params) ->
  (duration_minutes inp <= 0 ->
     dict_lookup key_to params = dict_lookup key_to extras /\
     (isValid (start_time inp) = true ->
        dict_lookup key_from params =
        Some (PStr (toString h (start_time inp) iso_format)))) /\
  (0 < duration_minutes inp -> isValid (start_time inp) = true ->
     dict_lookup key_to params =
     Some (PStr (toString h
                   (addSecs h (start_time inp) (duration_minutes inp * 60))
                   iso_format)) /\
     dict_lookup key_from params =
     Some (PStr (toString h (start_time inp) iso_format))).
Proof.
  intros Hx Hb.
  destruct (build_params_inv _ _ Hb) as (extras' & boxed & Hx' & He & Ht).
  rewrite Hx in Hx'. inversion Hx'; subst extras'; clear Hx'.
  assert (Hbox : dict_lookup key_to boxed = dict_lookup key_to extras)
    by (apply add_extent_other; [assumption | discriminate ..]).
  unfold add_times in Ht. split.
  - intros Hd. apply Z.ltb_ge in Hd. rewrite Hd in Ht.
    destruct (isValid (start_time inp)).
    + rewrite bind_emit in Ht. inversion Ht; subst. split.
      * now rewrite dict_lookup_set_other by discriminate.
      * intros _. apply dict_lookup_set_same.
    + inversion Ht; subst. split; [assumption | discriminate].
  - intros Hd Hv. apply Z.ltb_lt in Hd. rewrite Hd, Hv in Ht.
    rewrite !bind_emit in Ht. inversion Ht; subst. split.
    + apply dict_lookup_set_same.
    + rewrite dict_lookup_set_other by discriminate. apply dict_lookup_set_same.
Qed.

(** C6. When an extent is set, the four bounding-box parameters hold the
    bounds of the reprojected extent whatever the extra parameters held
    under those keys: the extra parameters are written first, then the
    bounds, then the time keys. *)
Theorem bounding_box_overwrites
  (r w : QgsRectangle) (params : list (pyval * pyval)) (t : list event) :
  extent inp = Some r ->
  transform_extent h (extent_crs inp) r = Ok w ->
  build_params h inp = (t, Ok params) ->
  dict_lookup "lon__greater_or_equal" params = Some (PFloat (xMinimum w)) /\
  dict_lookup "lon__lower_or_equal" params = Some (PFloat (xMaximum w)) /\
  dict_lookup "lat__greater_or_equal" params = Some (PFloat (yMinimum w)) /\
  dict_lookup "lat__lower_or_equal" params = Some (PFloat (yMaximum w)).
Proof.
  intros Hr Hw Hb.
  destruct (build_params_inv _ _ Hb) as (extras & boxed & _ & He & Ht).
  unfold add_extent in He. rewrite Hr, Hw in He.
  inversion He; subst boxed; clear He.
  repeat split;
    rewrite (add_times_other _ _ _ _ Ht) by discriminate;
    autorewrite with dict; reflexivity.
Qed.

(** C4. When the reply carries no error, status 200 and a body that
    decodes to anything but a non-empty list, the operation tells the user
    so and returns [None] under [OUTPUT]; it raises nothing and never asks
    for the sink. *)
Theorem empty_response_is_no_output
  (t : list event) (params : list (pyval * pyval)) (data : pyval) :
  build_params h inp = (t, Ok params) ->
  let u := {| url_path := base_url ++ api_path inp; url_query := params |} in
  reply_error (network inp u) = None ->
  status_code (network inp u) = Some 200 ->
  body (network inp u) = Ok data ->
  (forall item rest, data <> PList (item :: rest)) ->
  processAlgorithm h inp =
    ((t ++ [pushInfo (RequestingFrom u); manager_get u; reply_deleteLater;
            pushInfo NoItems])%list, Ok None) /\
  ~ In parameterAsSink (fst (processAlgorithm h inp)).
Proof.
  intros Hb u He Hs Hd Hdata.
  assert (Hrun : processAlgorithm h inp =
    ((t ++ [pushInfo (RequestingFrom u); manager_get u; reply_deleteLater;
            pushInfo NoItems])%list, Ok None)).
  { unfold processAlgorithm. rewrite Hb. unfold bind at 1.
    unfold fetch. fold u. unfold read_reply. rewrite He, Hs, Hd.
    rewrite !bind_emit. simpl.
    destruct data as [| | | | | [| item rest] |]; try reflexivity.
    now elim (Hdata item rest). }
  split; [exact Hrun |].
  rewrite Hrun. simpl. rewrite in_app_iff. intros [Hin | Hin].
  - apply build_params_trace in Hb. rewrite forallb_forall in Hb.
    now apply Hb in Hin.
  - simpl in Hin. intuition discriminate.
Qed.

End Query.



Lemma time_window_parameters_witness :
  dict_lookup "recorded_at_time_to"
    [(PStr "limit", PInt 2); (PStr "recorded_at_time_from", PStr "1000");
     (PStr "recorded_at_time_to", PStr "301000")] = Some (PStr "301000") /\
  dict_lookup "recorded_at_time_from"
    [(PStr "limit", PInt 2); (PStr "recorded_at_time_from", PStr "1000");
     (PStr "recorded_at_time_to", PStr "301000")] = Some (PStr "1000").
Proof.
  refine (proj2 (time_window_parameters Demo.host (Demo.timed "{'limit': 2}" 5)
                   [(PStr "limit", PInt 2)] _
                   [pushInfo (FilteringFrom (PStr "1000"));
                    pushInfo (CalculatedEnd (PStr "301000"))] _ _) _ _);
    reflexivity.
Defined.

Lemma bounding_box_overwrites_witness :
  let params :=
    [(PStr "lon__greater_or_equal", PFloat (Demo.double 34));
     (PStr "lon__lower_or_equal", PFloat (Demo.double 35));
     (PStr "lat__greater_or_equal", PFloat (Demo.double 31));
     (PStr "lat__lower_or_equal", PFloat (Demo.double 32))] in
  dict_lookup "lon__greater_or_equal" params = Some (PFloat (Demo.double 34)) /\
  dict_lookup "lon__lower_or_equal" params = Some (PFloat (Demo.double 35)) /\
  dict_lookup "lat__greater_or_equal" params = Some (PFloat (Demo.double 31)) /\
  dict_lookup "lat__lower_or_equal" params = Some (PFloat (Demo.double 32)).
Proof.
  refine (bounding_box_overwrites Demo.host
            (Demo.boxed "{'lon__greater_or_equal': 0}") Demo.box Demo.box _ [] _ _ _);
    reflexivity.
Defined.

Lemma empty_response_is_no_output_witness :
  let u := {| url_path := base_url ++ "/siri_vehicle_locations/list";
              url_query := [(PStr "limit", PInt 2)] |} in
  processAlgorithm Demo.host (Demo.inputs "{'limit': 2}" (PList [])) =
    ([pushInfo (RequestingFrom u); manager_get u; reply_deleteLater;
      pushInfo NoItems], Ok None) /\
  ~ In parameterAsSink
      (fst (processAlgorithm Demo.host (Demo.inputs "{'limit': 2}" (PList [])))).
Proof.
  refine (empty_response_is_no_output Demo.host
            (Demo.inputs "{'limit': 2}" (PList [])) []
            [(PStr "limit", PInt 2)] (PList []) _ _ _ _ _);
    try reflexivity.
  discriminate.
Defined.

(** ** Mapping a record to attributes *)

Lemma qtype_eqb_DateTime (q : qtype) : qtype_eqb q DateTime = true <-> q = DateTime.
Proof. destruct q; simpl; split; congruence. Qed.

Lemma attributes_for_Forall2 (item : pyval) (fields : list (string * qtype))
  (attrs : list qvariant) :
  attributes_for item fields = Ok attrs ->
  Forall2 (fun field a => attribute_for item field = Ok a) fields attrs.
Proof.
  revert attrs. induction fields as [| field fields IH]; simpl; intros attrs H.
  - inversion H. constructor.
  - destruct (attribute_for item field) as [a | e] eqn:Ea; [| discriminate H].
    simpl in H.
    destruct (attributes_for item fields) as [others | e]; [| discriminate H].
    inversion H; subst. constructor; auto.
Qed.

Lemma Forall2_nth_error {A B} (R : A -> B -> Prop) (l : list A) (l' : list B) :
  Forall2 R l l' ->
  forall k a, nth_error l k = Some a -> exists b, nth_error l' k = Some b /\ R a b.
Proof.
  induction 1 as [| x y l l' Hxy _ IH]; intros [| k] a Hk; simpl in *;
    try discriminate.
  - inversion Hk; subst. eauto.
  - eauto.
Qed.

Lemma attribute_for_null (items : list (pyval * pyval)) (field : string * qtype) :
  dict_lookup (original_key (fst field)) items = None \/
  dict_lookup (original_key (fst field)) items = Some PNone ->
  attribute_for (PDict items) field = Ok QNull.
Proof.
  unfold attribute_for, py_get. now intros [-> | ->].
Qed.

Lemma attribute_for_text (items : list (pyval * pyval)) (name s : string) :
  dict_lookup (original_key name) items = Some (PStr s) ->
  attribute_for (PDict items) (name, DateTime) = Ok (QDateTimeFromString s).
Proof.
  unfold attribute_for, py_get. simpl. now intros ->.
Qed.

(** A record whose timestamp slots are absent, null or text maps without an
    exception, whatever its other slots hold. *)
Lemma attributes_for_total (items : list (pyval * pyval)) (fields : list (string * qtype)) :
  (forall name, In (name, DateTime) fields ->
     text_or_null (dict_lookup (original_key name) items)) ->
  exists attrs, attributes_for (PDict items) fields = Ok attrs.
Proof.
  induction fields as [| [name q] fields IH]; intros Htext; simpl.
  - eauto.
  - destruct IH as [others Hothers].
    { intros n Hn. apply Htext. now right. }
    rewrite Hothers. unfold attribute_for, py_get. simpl.
    destruct (dict_lookup (original_key name) items) as [v |] eqn:Ev; simpl;
      [| eauto].
    destruct (is_none v) eqn:Hnone; simpl; [eauto |].
    destruct (qtype_eqb q DateTime) eqn:Eq; simpl; [| eauto].
    apply qtype_eqb_DateTime in Eq. subst q.
    specialize (Htext name (or_introl eq_refl)). rewrite Ev in Htext.
    destruct v; simpl in *; try contradiction; try discriminate; eauto.
Qed.


(** C7, as amended. For every raw record and every field of the schema whose
    upstream value, looked up under the key that [key_map] sends to the
    field or else under the field's own name, is absent or null: the slot's
    attribute is the null [QVariant] and computing it raises nothing; a
    mapped record carries that null in the field's position; and mapping the
    record raises nothing when each of its timestamp-typed fields is absent,
    null or text. *)
Theorem missing_value_is_null
  (items : list (pyval * pyval)) (k : nat) (field : string * qtype) :
  nth_error field_definitions k = Some field ->
  dict_lookup (original_key (fst field)) items = None \/
  dict_lookup (original_key (fst field)) items = Some PNone ->
  attribute_for (PDict items) field = Ok QNull /\
  (forall attrs, attributes_for (PDict items) field_definitions = Ok attrs ->
     nth_error attrs k = Some QNull) /\
  (timestamps_textual items ->
     exists attrs, attributes_for (PDict items) field_definitions = Ok attrs).
Proof.
  intros Hk Hnull.
  pose proof (attribute_for_null items field Hnull) as Hslot.
  repeat split.
  - exact Hslot.
  - intros attrs Hattrs. apply attributes_for_Forall2 in Hattrs.
    destruct (Forall2_nth_error _ _ _ Hattrs k field Hk) as (a & Ha & Hfa).
    congruence.
  - intros Htext. now apply attributes_for_total.
Qed.

Lemma missing_value_is_null_witness :
  attribute_for Sample.odd_time ("id", LongLong) = Ok QNull /\
  (forall attrs, attributes_for Sample.odd_time field_definitions = Ok attrs ->
     nth_error attrs 0 = Some QNull) /\
  (timestamps_textual
     [(PStr "lon", PNone); (PStr "recorded_at_time", PStr "yesterday")] ->
   exists attrs, attributes_for Sample.odd_time field_definitions = Ok attrs).
Proof.
  apply (missing_value_is_null
           [(PStr "lon", PNone); (PStr "recorded_at_time", PStr "yesterday")]
           0 ("id", LongLong)).
  - reflexivity.
  - left. reflexivity.
Defined.

(** The claim C7 as written fails: the record [{'lon': None,
    'recorded_at_time': 5}] has no [id], yet mapping it raises [TypeError],
    and the whole operation with it. *)
Lemma missing_value_counterexample :
  dict_lookup (original_key "id")
    [(PStr "lon", PNone); (PStr "recorded_at_time", PInt 5)] = None /\
  attributes_for Sample.numeric_time field_definitions = Raise TypeError /\
  snd (processAlgorithm Demo.host (Demo.inputs "" (PList [Sample.numeric_time])))
    = Raise TypeError.
Proof. repeat split. Qed.

(** C8, as amended. For every raw record whose value for a timestamp-typed
    field is text, ISO-8601 or not, the slot's attribute is the [QDateTime]
    that [QDateTime.fromString] returns for that text, an invalid one when
    the text does not parse, and computing it raises nothing; a mapped record
    carries it in the field's position; and mapping the record raises
    nothing when each of its timestamp-typed fields is absent, null or
    text. *)
Theorem odd_timestamp_text_is_kept
  (items : list (pyval * pyval)) (k : nat) (name s : string) :
  nth_error field_definitions k = Some (name, DateTime) ->
  dict_lookup (original_key name) items = Some (PStr s) ->
  attribute_for (PDict items) (name, DateTime) = Ok (QDateTimeFromString s) /\
  (forall attrs, attributes_for (PDict items) field_definitions = Ok attrs ->
     nth_error attrs k = Some (QDateTimeFromString s)) /\
  (timestamps_textual items ->
     exists attrs, attributes_for (PDict items) field_definitions = Ok attrs).
Proof.
  intros Hk Htext.
  pose proof (attribute_for_text items name s Htext) as Hslot.
  repeat split.
  - exact Hslot.
  - intros attrs Hattrs. apply attributes_for_Forall2 in Hattrs.
    destruct (Forall2_nth_error _ _ _ Hattrs k _ Hk) as (a & Ha & Hfa).
    congruence.
  - intros Hall. now apply attributes_for_total.
Qed.

Lemma odd_timestamp_text_is_kept_witness :
  attribute_for Sample.odd_time ("recorded_at", DateTime)
    = Ok (QDateTimeFromString "yesterday") /\
  (forall attrs, attributes_for Sample.odd_time field_definitions = Ok attrs ->
     nth_error attrs 3 = Some (QDateTimeFromString "yesterday")) /\
  (timestamps_textual
     [(PStr "lon", PNone); (PStr "recorded_at_time", PStr "yesterday")] ->
   exists attrs, attributes_for Sample.odd_time field_definitions = Ok attrs).
Proof.
  apply (odd_timestamp_text_is_kept
           [(PStr "lon", PNone); (PStr "recorded_at_time", PStr "yesterday")]
           3 "recorded_at" "yesterday"); reflexivity.
Defined.

(** The claim C8 as written fails: in the record [{'lon': None,
    'recorded_at_time': 5}] the value of [recorded_at] is present and is no
    ISO-8601 text; its slot raises [TypeError] and the whole operation
    fails. *)
Lemma odd_timestamp_counterexample :
  py_get Sample.numeric_time (original_key "recorded_at") = Ok (PInt 5) /\
  attribute_for Sample.numeric_time ("recorded_at", DateTime) = Raise TypeError /\
  processAlgorithm Demo.host (Demo.inputs "" (PList [Sample.numeric_time])) =
    ([pushInfo (RequestingFrom {| url_path := base_url ++ "/siri_vehicle_locations/list";
                                  url_query := [] |});
      manager_get {| url_path := base_url ++ "/siri_vehicle_locations/list";
                     url_query := [] |};
      reply_deleteLater; parameterAsSink; pushInfo (ProcessingFeatures 1)],
     Raise TypeError).
Proof. repeat split. Qed.

(** ** Binary64 arithmetic against exact arithmetic *)

Lemma pow2_pred (d : Z) : 0 < d -> 2 ^ d = 2 * 2 ^ (d - 1).
Proof.
  intros Hd. replace d with (Z.succ (d - 1)) at 1 by lia.
  apply Z.pow_succ_r. lia.
Qed.

Lemma digits2_pos_double (p : positive) :
  2 ^ Zpos (digits2_pos p) <= 2 * Zpos p < 2 * 2 ^ Zpos (digits2_pos p).
Proof.
  induction p as [p IH | p IH |]; cbn [digits2_pos].
  - rewrite Pos2Z.inj_succ, Pos2Z.inj_xI, Z.pow_succ_r by lia.
    set (X := 2 ^ Zpos (digits2_pos p)) in *. lia.
  - rewrite Pos2Z.inj_succ, (Pos2Z.inj_xO p), Z.pow_succ_r by lia.
    set (X := 2 ^ Zpos (digits2_pos p)) in *. lia.
  - simpl. lia.
Qed.

Lemma digits2_pos_bounds (p : positive) :
  2 ^ (Zpos (digits2_pos p) - 1) <= Zpos p < 2 ^ Zpos (digits2_pos p).
Proof.
  pose proof (digits2_pos_double p) as H.
  rewrite (pow2_pred (Zpos (digits2_pos p))) in H at 1 by lia.
  set (X := 2 ^ (Zpos (digits2_pos p) - 1)) in *.
  set (Y := 2 ^ Zpos (digits2_pos p)) in *. lia.
Qed.

Lemma Zdigits2_bounds (m : Z) :
  0 < m -> 2 ^ (Zdigits2 m - 1) <= m < 2 ^ Zdigits2 m.
Proof.
  destruct m as [| p | p]; try lia. intros _. apply digits2_pos_bounds.
Qed.

Lemma Zdigits2_nonneg (m : Z) : 0 <= Zdigits2 m.
Proof. destruct m; simpl; lia. Qed.

Lemma Zdigits2_pos (m : Z) : 0 < m -> 0 < Zdigits2 m.
Proof. destruct m; simpl; lia. Qed.

(** The number of digits is determined by the bounds. *)
Lemma Zdigits2_unique (m d : Z) :
  0 < m -> 2 ^ (d - 1) <= m < 2 ^ d -> Zdigits2 m = d.
Proof.
  intros Hm [Hlo Hhi].
  pose proof (Zdigits2_bounds m Hm) as [Hlo' Hhi'].
  pose proof (Zdigits2_pos m Hm).
  assert (0 < d).
  { destruct d as [| d | d]; simpl in Hhi; try lia. }
  assert (~ (Zdigits2 m < d)).
  { intros Hlt. assert (2 ^ Zdigits2 m <= 2 ^ (d - 1)) by (apply Z.pow_le_mono_r; lia). lia. }
  assert (~ (d < Zdigits2 m)).
  { intros Hlt. assert (2 ^ d <= 2 ^ (Zdigits2 m - 1)) by (apply Z.pow_le_mono_r; lia). lia. }
  lia.
Qed.

Lemma Zdigits2_le (m d : Z) : 0 <= m -> 0 <= d -> m < 2 ^ d -> Zdigits2 m <= d.
Proof.
  intros Hm0 Hd Hm. destruct (Z.eq_dec m 0) as [-> | Hne]; [exact Hd |].
  pose proof (Zdigits2_bounds m ltac:(lia)) as [Hlo _].
  destruct (Z.le_gt_cases (Zdigits2 m) d); trivial.
  assert (2 ^ d <= 2 ^ (Zdigits2 m - 1)) by (apply Z.pow_le_mono_r; lia). lia.
Qed.

Lemma Zdigits2_ge (m d : Z) : 2 ^ (d - 1) <= m -> 0 < m -> d <= Zdigits2 m.
Proof.
  intros Hm Hpos. pose proof (Zdigits2_bounds m Hpos) as [_ Hhi].
  destruct (Z.le_gt_cases d (Zdigits2 m)); trivial.
  assert (2 ^ Zdigits2 m <= 2 ^ (d - 1)) by (apply Z.pow_le_mono_r; [lia | lia]). lia.
Qed.

Lemma Zdigits2_mono (m m' : Z) : 0 <= m <= m' -> Zdigits2 m <= Zdigits2 m'.
Proof.
  intros [H0 Hle]. destruct (Z.eq_dec m 0) as [-> | Hne].
  - apply Zdigits2_nonneg.
  - apply Zdigits2_le; [lia | apply Zdigits2_nonneg |].
    pose proof (Zdigits2_bounds m' ltac:(lia)). lia.
Qed.

Lemma nearest_even_spec (N D : Z) :
  0 < D ->
  let v := nearest_even N D in
  (2 * v - 1) * D <= 2 * N <= (2 * v + 1) * D /\
  (2 * N = (2 * v + 1) * D -> Z.even v = true) /\
  (2 * N = (2 * v - 1) * D -> Z.even v = true).
Proof.
  intros HD. unfold nearest_even.
  pose proof (Z.div_mod N D ltac:(lia)) as Hdm.
  pose proof (Z.mod_pos_bound N D HD) as Hr.
  set (q := N / D) in *. set (r := N mod D) in *.
  destruct (Z.compare_spec (2 * r) D) as [He | Hl | Hg].
  - destruct (Z.even q) eqn:Eq; cbv zeta.
    + repeat split; intros; auto; nia.
    + assert (Z.even (q + 1) = true) by (rewrite Z.even_add, Eq; reflexivity).
      repeat split; intros; auto; nia.
  - cbv zeta. repeat split; intros; nia.
  - cbv zeta. repeat split; intros; nia.
Qed.

Lemma nearest_even_mono (N1 D1 N2 D2 : Z) :
  0 < D1 -> 0 < D2 -> N1 * D2 <= N2 * D1 ->
  nearest_even N1 D1 <= nearest_even N2 D2.
Proof.
  intros H1 H2 Hle.
  destruct (nearest_even_spec N1 D1 H1) as ((A1 & B1) & Eu1 & El1).
  destruct (nearest_even_spec N2 D2 H2) as ((A2 & B2) & Eu2 & El2).
  set (v1 := nearest_even N1 D1) in *. set (v2 := nearest_even N2 D2) in *.
  destruct (Z.le_gt_cases v1 v2) as [| Hgt]; trivial. exfalso.
  assert (P : 0 < D1 * D2) by nia.
  assert (C1 : (2 * v1 - 1) * (D1 * D2) <= 2 * (N1 * D2)) by nia.
  assert (C2 : 2 * (N2 * D1) <= (2 * v2 + 1) * (D1 * D2)) by nia.
  assert (C3 : (2 * v1 - 1) * (D1 * D2) <= (2 * v2 + 1) * (D1 * D2)) by lia.
  assert (v1 = v2 + 1) by nia.
  assert (E1 : 2 * N1 = (2 * v1 - 1) * D1) by nia.
  assert (E2 : 2 * N2 = (2 * v2 + 1) * D2) by nia.
  apply El1 in E1. apply Eu2 in E2. subst v1.
  replace (nearest_even N1 D1) with (v2 + 1) in E1 by lia.
  rewrite Z.even_add, E2 in E1. discriminate.
Qed.

Lemma nearest_even_whole (K : Z) : nearest_even K 1 = K.
Proof.
  unfold nearest_even. rewrite Z.div_1_r, Z.mod_1_r. reflexivity.
Qed.

Lemma nearest_even_le (N D K : Z) : 0 < D -> N <= K * D -> nearest_even N D <= K.
Proof.
  intros HD H. rewrite <- (nearest_even_whole K).
  apply nearest_even_mono; lia.
Qed.

Lemma nearest_even_ge (N D K : Z) : 0 < D -> K * D <= N -> K <= nearest_even N D.
Proof.
  intros HD H. rewrite <- (nearest_even_whole K) at 1.
  apply nearest_even_mono; lia.
Qed.

Lemma div_le_cross (P1 Q1 P2 Q2 : Z) :
  0 < Q1 -> 0 < Q2 -> P1 * Q2 <= P2 * Q1 -> P1 / Q1 <= P2 / Q2.
Proof.
  intros H1 H2 H. apply Z.div_le_lower_bound; [lia |].
  pose proof (Z.mul_div_le P1 Q1 H1). nia.
Qed.

Lemma pow2_pos (e : Z) : 0 <= e -> 0 < 2 ^ e.
Proof. intros. apply Z.pow_pos_nonneg; lia. Qed.

Lemma round53_mono (P1 Q1 P2 Q2 : Z) :
  0 <= P1 -> 0 < Q1 -> 0 < Q2 -> P1 * Q2 <= P2 * Q1 ->
  round53 P1 Q1 <= round53 P2 Q2.
Proof.
  intros HP1 HQ1 HQ2 Hle. unfold round53.
  assert (HI : P1 / Q1 <= P2 / Q2) by now apply div_le_cross.
  assert (HI0 : 0 <= P1 / Q1) by (apply Z.div_pos; lia).
  pose proof (Zdigits2_mono _ _ (conj HI0 HI)) as Hd.
  set (d1 := Zdigits2 (P1 / Q1)) in *. set (d2 := Zdigits2 (P2 / Q2)) in *.
  set (s1 := Z.max (d1 - 53) 46). set (s2 := Z.max (d2 - 53) 46).
  assert (Hs1 : 0 <= s1) by lia. assert (Hs2 : 0 <= s2) by lia.
  pose proof (pow2_pos s1 Hs1) as Hp1. pose proof (pow2_pos s2 Hs2) as Hp2.
  destruct (Z.eq_dec s1 s2) as [E | NE].
  - rewrite <- E. apply Z.mul_le_mono_nonneg_r; [lia |].
    apply nearest_even_mono; nia.
  - assert (Hlt : s1 + 1 <= s2) by lia.
    assert (Hd2 : s2 = d2 - 53) by lia.
    apply Z.le_trans with (2 ^ 53 * 2 ^ s1).
    + apply Z.mul_le_mono_nonneg_r; [lia |].
      apply nearest_even_le; [nia |].
      assert (Hup : P1 / Q1 < 2 ^ (53 + s1)).
      { destruct (Z.eq_dec (P1 / Q1) 0) as [-> | Hne]; [apply pow2_pos; lia |].
        pose proof (Zdigits2_bounds (P1 / Q1) ltac:(lia)) as [_ Hhi]. fold d1 in Hhi.
        assert (2 ^ d1 <= 2 ^ (53 + s1)) by (apply Z.pow_le_mono_r; lia). lia. }
      rewrite Z.pow_add_r in Hup by lia.
      pose proof (Z.div_mod P1 Q1 ltac:(lia)). pose proof (Z.mod_pos_bound P1 Q1 HQ1).
      nia.
    + apply Z.le_trans with (2 ^ 52 * 2 ^ s2).
      * rewrite <- !Z.pow_add_r by lia. apply Z.pow_le_mono_r; lia.
      * apply Z.mul_le_mono_nonneg_r; [lia |].
        apply nearest_even_ge; [nia |].
        assert (Hpos2 : 0 < P2 / Q2).
        { destruct (Z.eq_dec (P2 / Q2) 0) as [E0 | Hne]; [| lia].
          unfold d2 in *. rewrite E0 in *. simpl in *. lia. }
        pose proof (Zdigits2_bounds (P2 / Q2) Hpos2) as [Hlo _]. fold d2 in Hlo.
        replace (d2 - 1) with (52 + s2) in Hlo by lia.
        rewrite Z.pow_add_r in Hlo by lia.
        pose proof (Z.mul_div_le P2 Q2 HQ2). nia.
Qed.

(** The rounding depends on the ratio only. *)
Lemma round53_ratio (P1 Q1 P2 Q2 : Z) :
  0 <= P1 -> 0 <= P2 -> 0 < Q1 -> 0 < Q2 -> P1 * Q2 = P2 * Q1 ->
  round53 P1 Q1 = round53 P2 Q2.
Proof.
  intros. apply Z.le_antisymm; apply round53_mono; lia.
Qed.

Lemma located_bounds (mrs : shr_record) (N D : Z) :
  located mrs N D -> shr_m mrs * D <= N < (shr_m mrs + 1) * D.
Proof.
  destruct mrs as [m [] []]; unfold located; cbn [shr_m shr_r shr_s]; intros (Hm & HD & H); nia.
Qed.

Lemma located_div (mrs : shr_record) (N D : Z) :
  located mrs N D -> N / D = shr_m mrs /\ N mod D = N - shr_m mrs * D.
Proof.
  intros H. pose proof (located_bounds _ _ _ H) as Hb.
  destruct H as (Hm & HD & _).
  assert (E : N / D = shr_m mrs).
  { symmetry. apply Z.div_unique with (r := N - shr_m mrs * D); [left |]; lia. }
  split; [exact E |]. rewrite Z.mod_eq by lia. rewrite E. lia.
Qed.

Lemma shr_1_located (mrs : shr_record) (N D : Z) :
  located mrs N D -> located (shr_1 mrs) N (2 * D).
Proof.
  destruct mrs as [m r s]. unfold located. cbn [shr_m shr_r shr_s].
  intros (Hm & HD & H).
  destruct m as [| [p | p |] | p]; try lia; unfold shr_1;
    try rewrite (Pos2Z.inj_xI p) in *; try rewrite (Pos2Z.inj_xO p) in *;
    destruct r, s; cbn [orb shr_m shr_r shr_s];
    (split; [lia | split; [lia | nia]]).
Qed.

Lemma iter_shr_1_located (p : positive) :
  forall mrs N D,
    located mrs N D -> located (iter_pos shr_1 p mrs) N (D * 2 ^ Zpos p).
Proof.
  induction p as [p IH | p IH |]; intros mrs N D H; cbn [iter_pos].
  - apply shr_1_located in H. apply IH in H. apply IH in H.
    replace (D * 2 ^ Zpos p~1) with (2 * D * 2 ^ Zpos p * 2 ^ Zpos p); [exact H |].
    rewrite (Pos2Z.inj_xI p), Z.pow_add_r, Z.pow_mul_r by lia.
    change (2 ^ 2) with 4. rewrite Z.pow_1_r.
    replace 4 with (2 * 2) by reflexivity. rewrite Z.pow_mul_l. ring.
  - apply IH in H. apply IH in H.
    replace (D * 2 ^ Zpos p~0) with (D * 2 ^ Zpos p * 2 ^ Zpos p); [exact H |].
    rewrite (Pos2Z.inj_xO p), Z.pow_mul_r by lia.
    change (2 ^ 2) with 4. replace 4 with (2 * 2) by reflexivity.
    rewrite Z.pow_mul_l. ring.
  - apply shr_1_located in H.
    replace (D * 2 ^ 1) with (2 * D) by (rewrite Z.pow_1_r; ring). exact H.
Qed.

Lemma round_nearest_even_located (mrs : shr_record) (N D : Z) :
  located mrs N D ->
  round_nearest_even (shr_m mrs) (loc_of_shr_record mrs) = nearest_even N D.
Proof.
  intros H. destruct (located_div _ _ _ H) as [Eq Er].
  unfold nearest_even. rewrite Eq, Er.
  destruct mrs as [m r s]. destruct H as (Hm & HD & H).
  cbn [shr_m shr_r shr_s] in *.
  destruct r, s; cbn [loc_of_shr_record round_nearest_even].
  all: destruct (Z.compare_spec (2 * (N - m * D)) D); try reflexivity; lia.
Qed.

Lemma fexp64_eq (e : Z) : fexp64 e = Z.max (e - 53) (-1074).
Proof. reflexivity. Qed.

Lemma shr_fexp_located (m0 e0 : Z) (l : location) (N D : Z) :
  located (shr_record_of_loc m0 l) N D ->
  e0 <= fexp64 (Zdigits2 m0 + e0) ->
  exists mrs,
    shr_fexp 53 1024 m0 e0 l = (mrs, fexp64 (Zdigits2 m0 + e0)) /\
    located mrs N (D * 2 ^ (fexp64 (Zdigits2 m0 + e0) - e0)).
Proof.
  intros H He. unfold shr_fexp, shr.
  set (e1 := fexp64 (Zdigits2 m0 + e0)) in *.
  destruct (e1 - e0) as [| p | p] eqn:En; try lia.
  - exists (shr_record_of_loc m0 l). split; [f_equal; lia |].
    now rewrite Z.pow_0_r, Z.mul_1_r.
  - exists (iter_pos shr_1 p (shr_record_of_loc m0 l)). split; [f_equal; lia |].
    now apply iter_shr_1_located.
Qed.

Lemma located_shr_m_shr_record_of_loc (m : Z) (l : location) :
  shr_m (shr_record_of_loc m l) = m.
Proof. destruct l as [| []]; reflexivity. Qed.

Lemma nearest_even_ratio (N1 D1 N2 D2 : Z) :
  0 < D1 -> 0 < D2 -> N1 * D2 = N2 * D1 -> nearest_even N1 D1 = nearest_even N2 D2.
Proof. intros. apply Z.le_antisymm; apply nearest_even_mono; lia. Qed.

(** The second normalisation of [binary_round_aux] keeps the value. *)
Lemma renormalise (M e1 : Z) :
  0 <= M <= 2 ^ 53 -> -1074 <= e1 <= 970 ->
  let f :=
    let '(mrs, e) := shr_fexp 53 1024 M e1 loc_Exact in
    match shr_m mrs with
    | Z0 => S754_zero false
    | Zpos m => if e <=? 1024 - 53 then S754_finite false m e else S754_infinity false
    | Zneg _ => S754_nan
    end in
  positive_finite f /\ scaled f = M * 2 ^ (e1 + 1120).
Proof.
  intros [HM0 HM] He.
  destruct (Z.eq_dec M (2 ^ 53)) as [-> | Hne].
  - unfold shr_fexp, shr.
    replace (fexp64 (Zdigits2 (2 ^ 53) + e1) - e1) with 1
      by (rewrite fexp64_eq; change (Zdigits2 (2 ^ 53)) with 54; lia).
    cbv zeta. change (shr_m (iter_pos shr_1 1 (shr_record_of_loc (2 ^ 53) loc_Exact)))
      with (Zpos (Z.to_pos (2 ^ 52))).
    cbv iota beta.
    replace (e1 + 1 <=? 1024 - 53) with true by (symmetry; apply Z.leb_le; lia).
    split; [simpl; lia |].
    unfold scaled.
    replace (e1 + 1 + 1120) with (1 + (e1 + 1120)) by lia.
    rewrite Z.pow_add_r by lia. change (Zpos (Z.to_pos (2 ^ 52))) with (2 ^ 52).
    change (2 ^ 53) with (2 ^ 52 * 2 ^ 1). ring.
  - assert (Hd : Zdigits2 M <= 53) by (apply Zdigits2_le; lia).
    unfold shr_fexp, shr.
    assert (Hn : fexp64 (Zdigits2 M + e1) - e1 <= 0) by (rewrite fexp64_eq; lia).
    destruct (fexp64 (Zdigits2 M + e1) - e1) as [| p | p]; try lia;
      rewrite located_shr_m_shr_record_of_loc;
      (destruct M as [| m | m]; [simpl; split; [trivial | ring] | | lia]);
      replace (e1 <=? 1024 - 53) with true by (symmetry; apply Z.leb_le; lia);
      (split; [simpl; lia | reflexivity]).
Qed.

Lemma Zdigits2_shift (N D d k : Z) :
  0 < D -> 0 <= k -> 0 < N / D -> Zdigits2 (N / D) = d ->
  Zdigits2 (N * 2 ^ k / D) = d + k.
Proof.
  intros HD Hk Hpos <-.
  pose proof (Zdigits2_bounds (N / D) Hpos) as [Hlo Hhi].
  pose proof (Zdigits2_pos (N / D) Hpos) as Hd.
  set (d := Zdigits2 (N / D)) in *.
  pose proof (Z.mul_div_le N D HD) as H1.
  pose proof (Z.mul_succ_div_gt N D HD) as H2.
  pose proof (pow2_pos k Hk) as Hpk.
  assert (Ha : 2 ^ (d - 1) * D <= N) by nia.
  assert (Hb : N < 2 ^ d * D) by nia.
  assert (Hlo' : 2 ^ (d + k - 1) * D <= N * 2 ^ k).
  { replace (d + k - 1) with ((d - 1) + k) by lia. rewrite Z.pow_add_r by lia.
    replace (2 ^ (d - 1) * 2 ^ k * D) with (2 ^ (d - 1) * D * 2 ^ k) by ring.
    apply Z.mul_le_mono_nonneg_r; lia. }
  assert (Hhi' : N * 2 ^ k < 2 ^ (d + k) * D).
  { rewrite Z.pow_add_r by lia.
    replace (2 ^ d * 2 ^ k * D) with (2 ^ d * D * 2 ^ k) by ring.
    apply Z.mul_lt_mono_pos_r; lia. }
  apply Zdigits2_unique.
  - apply Z.lt_le_trans with (2 ^ (d + k - 1)); [apply pow2_pos; lia |].
    apply Z.div_le_lower_bound; lia.
  - split.
    + apply Z.div_le_lower_bound; lia.
    + apply Z.div_lt_upper_bound; lia.
Qed.

(** What [binary_round_aux] returns for a non-negative quantity
    [N / D * 2 ^ e0] given by its truncated mantissa and the place of the
    rest: the quantity rounded to nearest even. *)
Lemma binary_round_aux_scaled (m0 e0 : Z) (l : location) (N D : Z) :
  located (shr_record_of_loc m0 l) N D ->
  e0 <= fexp64 (Zdigits2 m0 + e0) ->
  -1120 <= e0 ->
  Zdigits2 m0 + e0 <= 1023 ->
  positive_finite (binary_round_aux 53 1024 false m0 e0 l) /\
  scaled (binary_round_aux 53 1024 false m0 e0 l) = round53 (N * 2 ^ (e0 + 1120)) D.
Proof.
  intros Hloc He Hlow Hhigh.
  destruct (shr_fexp_located _ _ _ _ _ Hloc He) as (mrs & Hshr & Hloc1).
  pose proof (located_div _ _ _ Hloc) as [Hm0 _].
  rewrite located_shr_m_shr_record_of_loc in Hm0.
  pose proof (located_bounds _ _ _ Hloc) as HN.
  rewrite located_shr_m_shr_record_of_loc in HN.
  destruct Hloc as (Hm0pos & HD & _).
  rewrite located_shr_m_shr_record_of_loc in Hm0pos.
  set (e1 := fexp64 (Zdigits2 m0 + e0)) in *.
  assert (He1 : e1 = Z.max (Zdigits2 m0 + e0 - 53) (-1074)) by apply fexp64_eq.
  pose proof (round_nearest_even_located _ _ _ Hloc1) as HM.
  set (M := nearest_even N (D * 2 ^ (e1 - e0))) in *.
  pose proof (pow2_pos (e1 - e0) ltac:(lia)) as Hp.
  assert (HMlo : 0 <= M) by (apply nearest_even_ge; nia).
  assert (HMhi : M <= 2 ^ 53).
  { apply nearest_even_le; [nia |].
    assert (Hm : m0 + 1 <= 2 ^ Zdigits2 m0).
    { destruct (Z.eq_dec m0 0) as [-> | Hne]; [simpl; lia |].
      pose proof (Zdigits2_bounds m0 ltac:(lia)). lia. }
    assert (Hpow : 2 ^ Zdigits2 m0 <= 2 ^ 53 * 2 ^ (e1 - e0)).
    { rewrite <- Z.pow_add_r by lia. apply Z.pow_le_mono_r; lia. }
    nia. }
  assert (Hfinal : positive_finite (binary_round_aux 53 1024 false m0 e0 l) /\
                   scaled (binary_round_aux 53 1024 false m0 e0 l) = M * 2 ^ (e1 + 1120)).
  { unfold binary_round_aux. rewrite Hshr, HM.
    apply (renormalise M e1); lia. }
  destruct Hfinal as [Hfin Hsc]. split; [exact Hfin |]. rewrite Hsc.
  unfold round53.
  set (k := e0 + 1120) in *.
  assert (Hs : Z.max (Zdigits2 (N * 2 ^ k / D) - 53) 46 = e1 + 1120).
  { destruct (Z.eq_dec m0 0) as [E0 | Hne].
    - rewrite E0 in *. change (Zdigits2 0) with 0 in *.
      assert (Hk : 0 <= k <= 46) by lia.
      assert (Hsmall : N * 2 ^ k / D < 2 ^ k).
      { apply Z.div_lt_upper_bound; [lia |]. pose proof (pow2_pos k ltac:(lia)). nia. }
      assert (Hdig : Zdigits2 (N * 2 ^ k / D) <= 46).
      { apply Zdigits2_le; [| lia |].
        - apply Z.div_pos; [| lia]. pose proof (pow2_pos k ltac:(lia)). nia.
        - apply Z.lt_le_trans with (2 ^ k); [lia |]. apply Z.pow_le_mono_r; lia. }
      lia.
    - rewrite (Zdigits2_shift N D (Zdigits2 m0) k); try lia.
      now rewrite Hm0. }
  rewrite Hs. f_equal.
  apply nearest_even_ratio.
  - nia.
  - pose proof (pow2_pos (e1 + 1120) ltac:(lia)). nia.
  - replace (e1 + 1120) with (k + (e1 - e0)) by lia.
    rewrite Z.pow_add_r by lia. ring.
Qed.

Lemma new_location_located (N D : Z) :
  0 <= N -> 0 < D ->
  located (shr_record_of_loc (N / D) (new_location D (N mod D))) N D.
Proof.
  intros HN HD.
  pose proof (Z.div_mod N D ltac:(lia)) as Hdm.
  pose proof (Z.mod_pos_bound N D HD) as Hr.
  assert (Hq : 0 <= N / D) by (apply Z.div_pos; lia).
  set (q := N / D) in *. set (r := N mod D) in *.
  unfold new_location, new_location_even, new_location_odd.
  destruct (Z.even D) eqn:Ev; destruct (Z.eqb_spec r 0) as [E0 | Hne].
  - unfold located; cbn; nia.
  - destruct (Z.compare_spec (2 * r) D); unfold located; cbn [shr_record_of_loc shr_m shr_r shr_s]; nia.
  - unfold located; cbn; nia.
  - assert (Hodd : 2 * r <> D).
    { intros E. rewrite <- E, Z.even_mul in Ev. discriminate. }
    destruct (Z.compare_spec (2 * r + 1) D); unfold located; cbn [shr_record_of_loc shr_m shr_r shr_s]; nia.
Qed.

Lemma positive_finite_is_finite (f : spec_float) :
  positive_finite f -> PyFloat.is_finite f = true.
Proof. destruct f as [[] | | | [] m e]; simpl; intros; trivial; contradiction. Qed.

(** [a / n] for [0 < a <= n] is the quotient rounded to nearest even. *)
Lemma truediv_scaled (a n : Z) :
  0 < a <= n ->
  exists q, PyFloat.truediv a n = Ok q /\ positive_finite q /\
            scaled q = round53 (a * 2 ^ 1120) n.
Proof.
  intros [Ha Han].
  destruct a as [| pa | pa]; try lia. destruct n as [| pn | pn]; try lia.
  unfold PyFloat.truediv. cbn [Z.eqb PyFloat.exact]. 
  unfold SFdiv, SFdiv_core_binary. cbn [xorb].
  change PyFloat.prec with 53. change PyFloat.emax with 1024.
  set (a := Zpos pa) in *. set (n := Zpos pn) in *.
  rewrite !Z.add_0_r. change (0 - 0) with 0.
  pose proof (Zdigits2_mono a n ltac:(lia)) as Hd.
  pose proof (Zdigits2_bounds a Ha) as [Halo Hahi].
  pose proof (Zdigits2_bounds n ltac:(lia)) as [Hnlo Hnhi].
  pose proof (Zdigits2_pos a Ha) as Hd1pos.
  pose proof (Zdigits2_pos n ltac:(lia)) as Hd2pos.
  set (d1 := Zdigits2 a) in *. set (d2 := Zdigits2 n) in *.
  assert (HE : fexp64 (d1 - d2) = Z.max (d1 - d2 - 53) (-1074)) by apply fexp64_eq.
  set (E := fexp64 (d1 - d2)) in *.
  replace (Z.min E 0) with E by lia.
  destruct (0 - E) as [| s | s] eqn:Hs; try lia.
  rewrite Z.shiftl_mul_pow2 by lia.
  assert (HsE : Zpos s = - E) by lia.
  pose proof (pow2_pos (Zpos s) ltac:(lia)) as Hps.
  set (N := a * 2 ^ Zpos s) in *.
  assert (HN : 0 <= N) by (unfold N; nia).
  rewrite (surjective_pairing (Z.div_eucl N n)).
  change (fst (Z.div_eucl N n)) with (N / n).
  change (snd (Z.div_eucl N n)) with (N mod n).
  pose proof (new_location_located N n HN ltac:(lia)) as Hloc.
  assert (Hq0 : 0 <= N / n) by (apply Z.div_pos; lia).
  assert (Hdq_lo : d1 - d2 - E <= Zdigits2 (N / n)).
  { destruct (Z.le_gt_cases (d1 - d2 - E) 0) as [Hle | Hgt].
    - pose proof (Zdigits2_nonneg (N / n)). lia.
    - assert (Hx : 2 ^ (d1 - d2 - E - 1) <= N / n).
      { apply Z.div_le_lower_bound; [lia |].
        assert (2 ^ (d1 - d2 - E - 1) * 2 ^ d2 <= N).
        { rewrite <- Z.pow_add_r by lia.
          replace (d1 - d2 - E - 1 + d2) with ((d1 - 1) + Zpos s) by lia.
          rewrite Z.pow_add_r by lia. unfold N.
          apply Z.mul_le_mono_nonneg_r; lia. }
        pose proof (pow2_pos (d1 - d2 - E - 1) ltac:(lia)). nia. }
      apply Zdigits2_ge; [exact Hx |].
      pose proof (pow2_pos (d1 - d2 - E - 1) ltac:(lia)). lia. }
  assert (Hdq_hi : Zdigits2 (N / n) <= Zpos s + 1).
  { apply Zdigits2_le; try lia.
    rewrite Z.pow_add_r by lia. change (2 ^ 1) with 2.
    apply Z.div_lt_upper_bound; [lia |]. unfold N. nia. }
  destruct (binary_round_aux_scaled (N / n) E (new_location n (N mod n)) N n Hloc)
    as [Hfin Hsc].
  - rewrite fexp64_eq. lia.
  - lia.
  - lia.
  - exists (binary_round_aux 53 1024 false (N / n) E (new_location n (N mod n))).
    rewrite (positive_finite_is_finite _ Hfin). repeat split; [exact Hfin |].
    rewrite Hsc. f_equal. unfold N. rewrite <- Z.mul_assoc, <- Z.pow_add_r by lia.
    f_equal. f_equal. lia.
Qed.

Lemma Zdigits2_mul_le (x y : Z) :
  0 < x -> 0 < y -> Zdigits2 (x * y) <= Zdigits2 x + Zdigits2 y.
Proof.
  intros Hx Hy.
  pose proof (Zdigits2_bounds x Hx) as [_ Hxh].
  pose proof (Zdigits2_bounds y Hy) as [_ Hyh].
  pose proof (Zdigits2_pos x Hx). pose proof (Zdigits2_pos y Hy).
  apply Zdigits2_le; [nia | lia |].
  rewrite Z.pow_add_r by lia. nia.
Qed.

(** [q * 100] for a double [0 <= q <= 1] is the product rounded to nearest
    even. *)
Lemma mul_int_scaled (q : spec_float) :
  positive_finite q -> scaled q <= 2 ^ 1120 ->
  exists p, PyFloat.mul_int q 100 = Ok p /\ positive_finite p /\
            scaled p = round53 (scaled q * 100) 1.
Proof.
  intros Hq Hone. unfold PyFloat.mul_int.
  change (PyFloat.of_int 100) with (Ok (S754_finite false (Z.to_pos (100 * 2 ^ 46)) (-46))).
  cbn [rbind]. change PyFloat.prec with 53. change PyFloat.emax with 1024.
  destruct q as [[] | | | [] mq eq]; try contradiction.
  - exists (S754_zero false). repeat split.
  - cbn [positive_finite] in Hq. cbn [scaled] in Hone |- *.
    cbn [SFmul xorb].
    change (Zpos (mq * Z.to_pos (100 * 2 ^ 46))) with (Zpos mq * (100 * 2 ^ 46)).
    set (m := Zpos mq) in *. assert (Hm : 0 < m) by (unfold m; lia).
    set (m0 := m * (100 * 2 ^ 46)).
    pose proof (Zdigits2_bounds m Hm) as [Hmlo _].
    pose proof (Zdigits2_pos m Hm) as Hdm.
    assert (Hdq : Zdigits2 m + eq <= 1).
    { destruct (Z.le_gt_cases (Zdigits2 m + eq) 1) as [| Hgt]; trivial. exfalso.
      pose proof (pow2_pos (eq + 1120) ltac:(lia)) as Hp.
      assert (2 ^ (Zdigits2 m - 1) * 2 ^ (eq + 1120) <= m * 2 ^ (eq + 1120))
        by (apply Z.mul_le_mono_nonneg_r; lia).
      rewrite <- Z.pow_add_r in H by lia.
      assert (2 ^ (1120 + 1) <= 2 ^ (Zdigits2 m - 1 + (eq + 1120)))
        by (apply Z.pow_le_mono_r; lia).
      rewrite Z.pow_add_r in H0 by lia. change (2 ^ 1) with 2 in H0.
      pose proof (pow2_pos 1120 ltac:(lia)). lia. }
    assert (Hm0 : 0 < m0) by (unfold m0; lia).
    assert (Hd_hi : Zdigits2 m0 <= Zdigits2 m + 53).
    { unfold m0. etransitivity; [apply Zdigits2_mul_le; lia |].
      change (Zdigits2 (100 * 2 ^ 46)) with 53. lia. }
    assert (Hd_lo : 53 <= Zdigits2 m0).
    { apply Zdigits2_ge; [| exact Hm0]. unfold m0.
      change (2 ^ (53 - 1)) with (16 * 2 ^ 48).
      change (100 * 2 ^ 46) with (25 * 2 ^ 48).
      pose proof (pow2_pos 48 ltac:(lia)). nia. }
    assert (Hloc : located (shr_record_of_loc m0 loc_Exact) m0 1).
    { unfold located. cbn [shr_record_of_loc shr_m shr_r shr_s]. lia. }
    destruct (binary_round_aux_scaled m0 (eq + -46) loc_Exact m0 1 Hloc) as [Hfin Hsc].
    + rewrite fexp64_eq. lia.
    + lia.
    + lia.
    + exists (binary_round_aux 53 1024 false m0 (eq + -46) loc_Exact).
      repeat split; [exact Hfin |]. rewrite Hsc. f_equal. unfold m0.
      replace (eq + 1120) with ((eq + -46 + 1120) + 46) by lia.
      rewrite (Z.pow_add_r 2 (eq + -46 + 1120) 46) by lia. ring.
Qed.

(** [int(p)] for a non-negative double is the whole part. *)
Lemma to_int_scaled (p : spec_float) :
  positive_finite p -> PyFloat.to_int p = Ok (scaled p / 2 ^ 1120).
Proof.
  destruct p as [[] | | | [] m e]; try contradiction; intros Hp.
  - reflexivity.
  - cbn [positive_finite] in Hp. cbn [PyFloat.to_int scaled]. f_equal.
    destruct (Z.le_gt_cases 0 e) as [He | He].
    + rewrite Z.shiftl_mul_pow2 by lia. rewrite Z.pow_add_r by lia.
      rewrite Z.mul_assoc. symmetry. apply Z.div_mul.
      pose proof (pow2_pos 1120 ltac:(lia)). lia.
    + rewrite Z.shiftl_div_pow2 by lia.
      replace (2 ^ 1120) with (2 ^ (- e) * 2 ^ (e + 1120))
        by (rewrite <- Z.pow_add_r by lia; f_equal; lia).
      rewrite Z.div_mul_cancel_r; [reflexivity | |];
        [pose proof (pow2_pos (- e) ltac:(lia)) | pose proof (pow2_pos (e + 1120) ltac:(lia))];
        lia.
Qed.

Lemma round53_nonneg (P Q : Z) : 0 <= P -> 0 < Q -> 0 <= round53 P Q.
Proof.
  intros HP HQ. unfold round53.
  set (s := Z.max (Zdigits2 (P / Q) - 53) 46).
  pose proof (pow2_pos s ltac:(lia)).
  apply Z.mul_nonneg_nonneg; [| lia].
  apply nearest_even_ge; nia.
Qed.

Lemma round53_one : round53 (2 ^ 1120) 1 = 2 ^ 1120.
Proof. vm_compute. reflexivity. Qed.

Lemma round53_hundred : round53 (2 ^ 1120 * 100) 1 / 2 ^ 1120 = 100.
Proof. vm_compute. reflexivity. Qed.

Lemma quotient_le_one (a n : Z) : 0 < a <= n -> round53 (a * 2 ^ 1120) n <= 2 ^ 1120.
Proof.
  intros H.
  apply Z.le_trans with (round53 (2 ^ 1120) 1); [| rewrite round53_one; lia].
  pose proof (pow2_pos 1120 ltac:(lia)).
  set (X := 2 ^ 1120) in *.
  apply round53_mono; nia.
Qed.

Lemma progress_percent_spec (i : nat) (n : Z) :
  Z.of_nat i < n -> progress_percent i n = Ok (percent_spec (Z.of_nat i + 1) n).
Proof.
  intros Hi. unfold progress_percent.
  destruct (truediv_scaled (Z.of_nat i + 1) n ltac:(lia)) as (q & -> & Hq & Hsq).
  cbn [rbind].
  destruct (mul_int_scaled q Hq) as (p & -> & Hp & Hsp).
  { rewrite Hsq. apply quotient_le_one. lia. }
  cbn [rbind]. rewrite (to_int_scaled p Hp), Hsp, Hsq. reflexivity.
Qed.

(** The two roundings show: 29 of 100 records give 28, not 29. *)
Example progress_percent_29_of_100 : progress_percent 28 100 = Ok 28.
Proof. reflexivity. Qed.

Example progress_percent_1_of_3 : progress_percent 0 3 = Ok 33.
Proof. reflexivity. Qed.

Lemma percent_spec_mono (a b n : Z) :
  0 < a <= b -> 0 < n -> percent_spec a n <= percent_spec b n.
Proof.
  intros Hab Hn. unfold percent_spec.
  pose proof (pow2_pos 1120 ltac:(lia)) as Hp.
  set (X := 2 ^ 1120) in *.
  apply Z.div_le_mono; [lia |].
  assert (Hq : round53 (a * X) n <= round53 (b * X) n)
    by (apply round53_mono; nia).
  pose proof (round53_nonneg (a * X) n ltac:(nia) Hn).
  apply round53_mono; lia.
Qed.

Lemma percent_spec_full (n : Z) : 0 < n -> percent_spec n n = 100.
Proof.
  intros Hn. unfold percent_spec.
  pose proof (pow2_pos 1120 ltac:(lia)) as Hp.
  rewrite (round53_ratio (n * 2 ^ 1120) n (2 ^ 1120) 1)
    by (set (X := 2 ^ 1120) in *; nia).
  rewrite round53_one. apply round53_hundred.
Qed.

Lemma percent_spec_range (a n : Z) : 0 < a <= n -> 0 <= percent_spec a n <= 100.
Proof.
  intros Han. split.
  - unfold percent_spec. pose proof (pow2_pos 1120 ltac:(lia)) as Hp.
    set (X := 2 ^ 1120) in *.
    apply Z.div_pos; [| lia]. apply round53_nonneg; [| lia].
    pose proof (round53_nonneg (a * X) n ltac:(nia) ltac:(lia)). lia.
  - rewrite <- (percent_spec_full n) by lia. apply percent_spec_mono; lia.
Qed.

(** ** The emission loop *)

Section Loop.

Variable h : Host.
Variable inp : Inputs.

(** One turn of the loop, case by case. *)
Lemma emit_loop_cons (total : Z) (i : nat) (item : pyval) (rest : list pyval) :
  emit_loop h inp total i (item :: rest) =
  if isCanceled inp i then ([], Ok tt)
  else
    match geometry_for h item with
    | Raise e => ([], Raise e)
    | Ok Continue => emit_loop h inp total (S i) rest
    | Ok (Geometry geom) =>
        match attributes_for item field_definitions with
        | Raise e => ([], Raise e)
        | Ok attrs =>
            let f := {| geometry := geom; attributes := attrs |} in
            match progress_percent i total with
            | Raise e => ([addFeature f], Raise e)
            | Ok p =>
                (addFeature f :: setProgress p
                   :: fst (emit_loop h inp total (S i) rest),
                 snd (emit_loop h inp total (S i) rest))
            end
        end
    end.
Proof.
  cbn [emit_loop]. destruct (isCanceled inp i); [reflexivity |].
  destruct (geometry_for h item) as [[| geom] | e]; try reflexivity.
  - now rewrite bind_lift_ok.
  - rewrite bind_lift_ok.
    destruct (attributes_for item field_definitions) as [attrs | e];
      [| reflexivity].
    rewrite bind_lift_ok, bind_emit.
    destruct (progress_percent i total) as [p | e]; [| reflexivity].
    now rewrite bind_lift_ok, bind_emit.
Qed.

(** A record with a null or missing coordinate keeps its place in the
    output, without geometry. *)
Lemma missing_coordinate_no_geometry (item : pyval) :
  py_get item "lon" = Ok PNone \/
  (exists lon, py_get item "lon" = Ok lon /\ py_get item "lat" = Ok PNone) ->
  geometry_for h item = Ok (Geometry None).
Proof.
  unfold geometry_for, rbind. intros [-> | (lon & -> & ->)]; [reflexivity |].
  destruct (is_none lon); reflexivity.
Qed.

(** C1, as amended. For every raw record whose [lon] and [lat] are both
    present (non-null) and whose [lon], or else whose [lat] once [lon] has
    been converted, [float] rejects with [ValueError] or [TypeError], the
    record is skipped as a whole: the geometry block ends in [continue], so
    that no feature, attribute or progress value is emitted for it, nothing
    is raised, and the loop goes on with the next record. *)
Theorem unparsable_coordinates_skip_record
  (total : Z) (i : nat) (item lon lat : pyval) (rest : list pyval) :
  py_get item "lon" = Ok lon -> lon <> PNone ->
  py_get item "lat" = Ok lat -> lat <> PNone ->
  float_rejects h lon \/
  ((exists x, py_float h lon = Ok x) /\ float_rejects h lat) ->
  isCanceled inp i = false ->
  geometry_for h item = Ok Continue /\
  emit_loop h inp total i (item :: rest) = emit_loop h inp total (S i) rest.
Proof.
  intros Hlon Hlon' Hlat Hlat' Hbad Hrun.
  assert (Hg : geometry_for h item = Ok Continue).
  { assert (Hn : forall v, v <> PNone -> is_none v = false)
      by (intros [] ?; trivial; contradiction).
    unfold geometry_for, rbind. rewrite Hlon, (Hn lon Hlon'), Hlat, (Hn lat Hlat').
    unfold point_of, rbind.
    destruct Hbad as [[-> | ->] | [[x ->] [-> | ->]]]; reflexivity. }
  split; [exact Hg |].
  now rewrite emit_loop_cons, Hrun, Hg.
Qed.

(** Once a turn of the loop sees the cancellation flag, the records from
    that turn on leave no trace. *)
Lemma emit_loop_cancelled (total : Z) (pre post : list pyval) :
  forall i,
    isCanceled inp (i + List.length pre) = true ->
    emit_loop h inp total i (pre ++ post) = emit_loop h inp total i pre.
Proof.
  induction pre as [| item pre IH]; intros i Hc.
  - rewrite Nat.add_0_r in Hc. destruct post as [| item post]; [reflexivity |].
    simpl app. rewrite emit_loop_cons, Hc. reflexivity.
  - simpl app. rewrite !emit_loop_cons.
    assert (IH' : emit_loop h inp total (S i) (pre ++ post)
                  = emit_loop h inp total (S i) pre).
    { apply IH. simpl in Hc. now rewrite Nat.add_succ_r in Hc. }
    now rewrite IH'.
Qed.



(** The trace of the loop over the records [items] that follow [front] in
    [data]: one report for each written record, at increasing indices from
    [length front] on, each with the feature of its record and the value due
    at its index; the values nondecreasing, between the value due at
    [length front] and 100; the last report the one of the last record, with
    100, when the loop runs to the end and writes that record. *)
Lemma emit_loop_reports (data : list pyval) (items : list pyval) :
  let total := Z.of_nat (List.length data) in
  forall front,
    data = (front ++ items)%list ->
    let i := List.length front in
    exists log : list report,
      fst (emit_loop h inp total i items) = flat_map reported log /\
      Forall (fun r => (i <= at_index r)%nat) log /\
      StronglySorted lt (map at_index log) /\
      Forall (report_of h data total) log /\
      Forall (fun r => percent_spec (Z.of_nat i + 1) total <= the_value r <= 100) log /\
      StronglySorted Z.le (map the_value log) /\
      (snd (emit_loop h inp total i items) = Ok tt ->
       (forall j, (i <= j < List.length data)%nat -> isCanceled inp j = false) ->
       forall before last,
         items = (before ++ [last])%list ->
         geometry_for h last <> Ok Continue ->
         exists log' f,
           log = (log' ++ [{| at_index := List.length data - 1;
                              the_feature := f; the_value := 100 |}])%list).
Proof.
  intros total. induction items as [| item rest IH]; intros front Hdata i.
  - exists []. repeat split; try constructor.
    intros _ _ [| x before] last E; discriminate E.
  - assert (Hlen : List.length data = (i + S (List.length rest))%nat).
    { rewrite Hdata, length_app. reflexivity. }
    assert (Hnth : nth_error data i = Some item).
    { rewrite Hdata. rewrite nth_error_app2 by (unfold i; lia).
      unfold i. now rewrite Nat.sub_diag. }
    destruct (IH (front ++ [item])%list) as
      (log & Ht & Hfrom & Hidx & Hrep & Hrange & Hsorted & Hlast).
    { rewrite Hdata, <- app_assoc. reflexivity. }
    rewrite length_app in Ht, Hfrom, Hrange, Hlast. cbn [List.length] in Ht, Hfrom, Hrange, Hlast.
    fold i in Ht, Hfrom, Hrange, Hlast.
    replace (i + 1)%nat with (S i) in Ht, Hfrom, Hrange, Hlast by lia.
    rewrite emit_loop_cons.
    destruct (isCanceled inp i) eqn:Hc.
    { exists []. repeat split; try constructor.
      intros _ Hnc. rewrite (Hnc i) in Hc by lia. discriminate. }
    assert (Hmono : percent_spec (Z.of_nat i + 1) total
                    <= percent_spec (Z.of_nat (S i) + 1) total)
      by (apply percent_spec_mono; unfold total; lia).
    assert (Hweaken : Forall (fun r => percent_spec (Z.of_nat i + 1) total
                                       <= the_value r <= 100) log).
    { eapply Forall_impl; [| exact Hrange]. cbv beta. intros r Hr. lia. }
    assert (Hfrom' : Forall (fun r => (i <= at_index r)%nat) log).
    { eapply Forall_impl; [| exact Hfrom]. cbv beta. intros r Hr. lia. }
    assert (Hrest : forall before last,
               item :: rest = (before ++ [last])%list -> rest <> [] ->
               exists before', rest = (before' ++ [last])%list).
    { intros [| x before] last E Hne; inversion E; subst; [congruence | eauto]. }
    destruct (geometry_for h item) as [[| geom] | e] eqn:Hg.
    + exists log. repeat split; trivial.
      intros Hok Hnc before last E Hwritten.
      destruct rest as [| r rest'].
      * destruct before as [| x [| y before]]; inversion E; subst. congruence.
      * destruct (Hrest before last E ltac:(discriminate)) as [before' E'].
        apply (Hlast Hok) with (before := before') (last := last); trivial.
        intros j Hj. apply Hnc. lia.
    + destruct (attributes_for item field_definitions) as [attrs | e] eqn:Ha.
      2:{ exists []. repeat split; try constructor. discriminate. }
      pose proof (progress_percent_spec i total ltac:(unfold total; lia)) as Hpi.
      rewrite Hpi.
      set (f := {| geometry := geom; attributes := attrs |}).
      set (p := percent_spec (Z.of_nat i + 1) total).
      assert (Hp : 0 <= p <= 100) by (apply percent_spec_range; unfold total; lia).
      set (r0 := {| at_index := i; the_feature := f; the_value := p |}).
      exists (r0 :: log). cbn [fst snd]. repeat split.
      * cbn [flat_map reported the_feature the_value r0 app]. now rewrite Ht.
      * constructor; [cbn; lia | exact Hfrom'].
      * cbn [map at_index r0]. constructor; [exact Hidx |].
        rewrite Forall_map. eapply Forall_impl; [| exact Hfrom].
        cbv beta. intros r Hr. lia.
      * constructor; [| exact Hrep].
        exists item. cbn [at_index the_feature the_value r0].
        repeat split; assumption.
      * constructor; [cbn [the_value r0]; lia | exact Hweaken].
      * cbn [map the_value r0]. constructor; [exact Hsorted |].
        rewrite Forall_map. eapply Forall_impl; [| exact Hweaken].
        cbv beta. intros r Hr. fold p in Hr. lia.
      * intros Hok Hnc before last E Hwritten.
        destruct rest as [| r rest'].
        -- destruct before as [| x [| y before]]; inversion E; subst.
           assert (El : log = []).
           { destruct log as [| fp log]; trivial. discriminate Ht. }
           exists [], f. rewrite El. cbn [app]. unfold r0. f_equal. f_equal.
           ++ cbn [List.length] in Hlen. lia.
           ++ unfold p. replace (Z.of_nat i + 1) with total
                by (unfold total; cbn [List.length] in Hlen; lia).
              apply percent_spec_full. unfold total. lia.
        -- destruct (Hrest before last E ltac:(discriminate)) as [before' E'].
           destruct (Hlast Hok) with (before := before') (last := last)
             as (log' & f' & El); trivial.
           { intros j Hj. apply Hnc. lia. }
           exists (r0 :: log'), f'. rewrite El. reflexivity.
    + exists []. repeat split; try constructor. discriminate.
Qed.

(** C3, as amended. In every run of the loop a progress value is reported
    after each record written to the sink, and only then: a record skipped
    for its coordinates reports nothing. Each report belongs to one record,
    later reports to later records, and its value is
    [int((i + 1) / total * 100)] for the index [i] of that record. The
    values are nondecreasing percentages between 0 and 100, and the last one
    is 100, reported for the last record, when the run is not cancelled,
    raises nothing and writes the last record. *)
Theorem progress_follows_written_records (data : list pyval) :
  let total := Z.of_nat (List.length data) in
  exists log : list report,
    fst (emit_loop h inp total 0 data) = flat_map reported log /\
    StronglySorted lt (map at_index log) /\
    Forall (report_of h data total) log /\
    Forall (fun r => 0 <= the_value r <= 100) log /\
    StronglySorted Z.le (map the_value log) /\
    (snd (emit_loop h inp total 0 data) = Ok tt ->
     (forall j, (j < List.length data)%nat -> isCanceled inp j = false) ->
     forall front last,
       data = (front ++ [last])%list ->
       geometry_for h last <> Ok Continue ->
       exists log' f,
         log = (log' ++ [{| at_index := List.length data - 1;
                            the_feature := f; the_value := 100 |}])%list).
Proof.
  intros total.
  destruct (emit_loop_reports data data [] eq_refl)
    as (log & Ht & _ & Hidx & Hrep & Hrange & Hsorted & Hlast).
  cbn [List.length] in Ht, Hrange, Hlast. fold total in Ht, Hrep, Hrange, Hlast.
  exists log. repeat split; trivial.
  - rewrite Forall_forall in *. intros r Hin.
    specialize (Hrange r Hin). cbv beta in Hrange.
    destruct data as [| item rest].
    + cbn [emit_loop ret fst] in Ht. destruct log; [| discriminate Ht].
      contradiction.
    + assert (0 <= percent_spec (Z.of_nat 0 + 1) total <= 100).
      { apply percent_spec_range. unfold total. cbn [List.length]. lia. }
      lia.
  - intros Hok Hnc. apply Hlast; trivial.
    intros j Hj. apply Hnc. lia.
Qed.

(** C9. When a turn of the loop finds the cancellation flag set, the loop
    stops: the records from that turn on cause no event, so nothing more is
    written to the sink, and, the records before that turn having raised
    nothing, the operation returns the destination id of the sink. *)
Theorem cancellation_stops_emission (pre post : list pyval) (dest_id : string) :
  sink inp = Some dest_id ->
  isCanceled inp (List.length pre) = true ->
  let total := Z.of_nat (List.length (pre ++ post)) in
  snd (emit_loop h inp total 0 pre) = Ok tt ->
  emit_loop h inp total 0 (pre ++ post) = emit_loop h inp total 0 pre /\
  features_written (fst (emit_features h inp (pre ++ post))) =
    features_written (fst (emit_loop h inp total 0 pre)) /\
  snd (emit_features h inp (pre ++ post)) = Ok (Some dest_id).
Proof.
  intros Hsink Hc total Hok.
  assert (Hloop : emit_loop h inp total 0 (pre ++ post) = emit_loop h inp total 0 pre)
    by (apply emit_loop_cancelled; exact Hc).
  split; [exact Hloop |].
  unfold emit_features. rewrite Hsink. fold total.
  rewrite !bind_emit, Hloop. rewrite bind_fst_snd, Hok. simpl.
  rewrite app_nil_r. auto.
Qed.


End Loop.

Lemma unparsable_coordinates_skip_record_witness :
  geometry_for Demo.host Sample.bad_lon = Ok Continue /\
  emit_loop Demo.host (Demo.inputs "" PNone) 2 0 [Sample.bad_lon; Sample.good] =
  emit_loop Demo.host (Demo.inputs "" PNone) 2 1 [Sample.good].
Proof.
  apply (unparsable_coordinates_skip_record Demo.host (Demo.inputs "" PNone)
           2 0 Sample.bad_lon (PStr "abc") (PStr "32.07") [Sample.good]);
    try reflexivity; try discriminate.
  left. left. reflexivity.
Defined.

(** The claim C1 as written fails: [lon] of the record is the text ['abc'],
    which [float] rejects, and the run, which raises nothing, writes no
    feature at all, with or without geometry. *)
Lemma unparsable_coordinates_counterexample :
  py_get Sample.bad_lon "lon" = Ok (PStr "abc") /\
  py_float Demo.host (PStr "abc") = Raise ValueError /\
  snd (processAlgorithm Demo.host (Demo.inputs "" (PList [Sample.bad_lon])))
    = Ok (Some "memory:output") /\
  features_written
    (fst (processAlgorithm Demo.host (Demo.inputs "" (PList [Sample.bad_lon])))) = [].
Proof. repeat split. Qed.

(** The claim C3 as written fails: over the two records [good], [bad_lon]
    the run is not cancelled and raises nothing, yet the only progress value
    is 50: none is reported after the second record and 100 is never
    reached. *)
Lemma progress_counterexample :
  snd (processAlgorithm Demo.host
         (Demo.inputs "" (PList [Sample.good; Sample.bad_lon])))
    = Ok (Some "memory:output") /\
  progress_reported
    (fst (processAlgorithm Demo.host
            (Demo.inputs "" (PList [Sample.good; Sample.bad_lon])))) = [50].
Proof. split; reflexivity. Qed.

Example progress_of_two_written_records :
  progress_reported
    (fst (processAlgorithm Demo.host
            (Demo.inputs "" (PList [Sample.good; Sample.odd_time])))) = [50; 100].
Proof. reflexivity. Qed.

Lemma cancellation_stops_emission_witness :
  let inp := {| api_path := "/siri_vehicle_locations/list";
                params_str := "";
                extent := None;
                extent_crs := "EPSG:4326";
                start_time := {| isValid := false; msecsSinceEpoch := 0 |};
                duration_minutes := 5;
                network := fun _ => Demo.ok_reply PNone;
                sink := Some "memory:output";
                isCanceled := fun i => Nat.leb 1 i |} in
  emit_loop Demo.host inp 2 0 [Sample.good; Sample.odd_time]
    = emit_loop Demo.host inp 2 0 [Sample.good] /\
  features_written (fst (emit_features Demo.host inp [Sample.good; Sample.odd_time]))
    = features_written (fst (emit_loop Demo.host inp 2 0 [Sample.good])) /\
  snd (emit_features Demo.host inp [Sample.good; Sample.odd_time])
    = Ok (Some "memory:output").
Proof.
  intros inp.
  apply (cancellation_stops_emission Demo.host inp [Sample.good] [Sample.odd_time]
           "memory:output"); reflexivity.
Defined.


(** * Further properties *)

(** ** More on the query *)

Lemma dict_set_keys (k : string) (v : pyval) (d : list (pyval * pyval)) :
  exists tail, map fst (dict_set k v d) = (map fst d ++ tail)%list.
Proof.
  induction d as [| [key w] d [tail IH]]; simpl.
  - now exists [PStr k].
  - destruct (key_is k key); simpl.
    + exists []. now rewrite app_nil_r.
    + exists tail. now rewrite IH.
Qed.

Lemma dict_set_fresh (k : string) (v : pyval) (d : list (pyval * pyval)) :
  dict_lookup k d = None -> dict_set k v d = (d ++ [(PStr k, v)])%list.
Proof.
  induction d as [| [key w] d IH]; simpl; [reflexivity |].
  destruct (key_is k key); [discriminate |]. intros H. now rewrite IH.
Qed.

Section QueryMore.

Variable h : Host.
Variable inp : Inputs.

(** X1. The builder leaves every parameter of the user alone, except the six
    it owns: under any other key the final parameters hold what the extra
    parameters held. *)
Theorem extra_parameters_pass_through
  (extras params : list (pyval * pyval)) (t : list event) (k : string) :
  parse_params h inp = Ok extras ->
  build_params h inp = (t, Ok params) ->
  ~ In k builder_keys ->
  dict_lookup k params = dict_lookup k extras.
Proof.
  intros Hx Hb Hk.
  destruct (build_params_inv _ _ _ _ Hb) as (extras' & boxed & Hx' & He & Ht).
  rewrite Hx in Hx'. inversion Hx'; subst extras'; clear Hx'.
  unfold builder_keys in Hk. cbn [In] in Hk.
  rewrite (add_times_other _ _ k _ _ _ Ht) by intuition congruence.
  apply (add_extent_other h inp); [exact He | intuition congruence ..].
Qed.

(** X2. The keys of the extra parameters keep their order at the front of
    the final dictionary, hence of the query string: the builder overwrites
    in place or appends, and never removes. *)
Theorem user_keys_stay_in_front
  (extras params : list (pyval * pyval)) (t : list event) :
  parse_params h inp = Ok extras ->
  build_params h inp = (t, Ok params) ->
  exists tail, map fst params = (map fst extras ++ tail)%list.
Proof.
  intros Hx Hb.
  destruct (build_params_inv _ _ _ _ Hb) as (extras' & boxed & Hx' & He & Ht).
  rewrite Hx in Hx'. inversion Hx'; subst extras'; clear Hx'.
  assert (Hbox : exists tail, map fst boxed = (map fst extras ++ tail)%list).
  { unfold add_extent in He. destruct (extent inp) as [r |].
    - destruct (transform_extent h (extent_crs inp) r) as [w | e]; [| discriminate].
      inversion He; subst boxed; clear He.
      destruct (dict_set_keys "lon__greater_or_equal" (PFloat (xMinimum w)) extras)
        as [t1 E1].
      destruct (dict_set_keys "lon__lower_or_equal" (PFloat (xMaximum w))
                  (dict_set "lon__greater_or_equal" (PFloat (xMinimum w)) extras))
        as [t2 E2].
      destruct (dict_set_keys "lat__greater_or_equal" (PFloat (yMinimum w))
                  (dict_set "lon__lower_or_equal" (PFloat (xMaximum w))
                     (dict_set "lon__greater_or_equal" (PFloat (xMinimum w)) extras)))
        as [t3 E3].
      destruct (dict_set_keys "lat__lower_or_equal" (PFloat (yMaximum w))
                  (dict_set "lat__greater_or_equal" (PFloat (yMinimum w))
                     (dict_set "lon__lower_or_equal" (PFloat (xMaximum w))
                        (dict_set "lon__greater_or_equal" (PFloat (xMinimum w)) extras))))
        as [t4 E4].
      exists (t1 ++ t2 ++ t3 ++ t4)%list.
      rewrite E4, E3, E2, E1, <- !app_assoc. reflexivity.
    - inversion He; subst. exists []. now rewrite app_nil_r. }
  destruct Hbox as [tail Hbox]. unfold add_times in Ht.
  destruct (isValid (start_time inp)).
  - rewrite bind_emit in Ht.
    set (from := PStr (toString h (start_time inp) iso_format)) in *.
    destruct (dict_set_keys "recorded_at_time_from" from boxed) as [t1 E1].
    destruct (0 <? duration_minutes inp).
    + rewrite bind_emit in Ht. inversion Ht; subst params.
      match goal with
      | |- context [dict_set "recorded_at_time_to" ?v ?d] =>
          destruct (dict_set_keys "recorded_at_time_to" v d) as [t2 E2]
      end.
      exists (tail ++ t1 ++ t2)%list.
      rewrite E2, E1, Hbox, <- !app_assoc. reflexivity.
    + inversion Ht; subst params. exists (tail ++ t1)%list.
      rewrite E1, Hbox, <- !app_assoc. reflexivity.
  - inversion Ht; subst params. now exists tail.
Qed.

(** X3. Without an extent no bound is added: under each of the four bound
    keys the final parameters hold what the extra parameters held. *)
Theorem no_extent_no_bounds
  (extras params : list (pyval * pyval)) (t : list event) (k : string) :
  extent inp = None ->
  parse_params h inp = Ok extras ->
  build_params h inp = (t, Ok params) ->
  In k ["lon__greater_or_equal"; "lon__lower_or_equal";
        "lat__greater_or_equal"; "lat__lower_or_equal"] ->
  dict_lookup k params = dict_lookup k extras.
Proof.
  intros Hnone Hx Hb Hk.
  destruct (build_params_inv _ _ _ _ Hb) as (extras' & boxed & Hx' & He & Ht).
  rewrite Hx in Hx'. inversion Hx'; subst extras'; clear Hx'.
  unfold add_extent in He. rewrite Hnone in He. inversion He; subst boxed.
  apply (add_times_other _ _ k _ _ _ Ht);
    cbn [In] in Hk; intuition (subst; discriminate).
Qed.

(** X4. An invalid start time switches the whole time window off, whatever
    the duration: the builder pushes no message and the final parameters are
    those the extent block left. *)
Theorem invalid_start_time_sets_nothing
  (extras boxed : list (pyval * pyval)) :
  isValid (start_time inp) = false ->
  parse_params h inp = Ok extras ->
  add_extent h inp extras = Ok boxed ->
  build_params h inp = ([], Ok boxed).
Proof.
  intros Hv Hx He. unfold build_params.
  rewrite Hx, bind_lift_ok, He, bind_lift_ok.
  unfold add_times. now rewrite Hv.
Qed.

(** X5. An exception of [eval] other than [SyntaxError] and [TypeError]
    (a [NameError] for an unquoted word, say) is not turned into
    [InvalidParameterFormat]: it leaves the operation as it is, before any
    request; a [TypeError] raised while evaluating is reported like a value
    that is no dictionary. *)
Theorem eval_exceptions (e : exn) :
  params_str inp <> "" ->
  eval h (params_str inp) = Raise e ->
  processAlgorithm h inp =
    ([], Raise (match e with
                | SyntaxError | TypeError => QgsProcessingException InvalidParameterFormat
                | _ => e
                end)).
Proof.
  intros Hne He.
  assert (Hp : parse_params h inp =
               Raise (match e with
                      | SyntaxError | TypeError => QgsProcessingException InvalidParameterFormat
                      | _ => e
                      end)).
  { unfold parse_params.
    destruct (String.eqb_spec (params_str inp) ""); [contradiction |].
    rewrite He. destruct e; reflexivity. }
  unfold processAlgorithm, build_params. now rewrite Hp.
Qed.

(** X6. When the extent cannot be reprojected, the exception of the
    transform ends the operation before any message or request. *)
Theorem extent_failure_aborts_before_request
  (extras : list (pyval * pyval)) (r : QgsRectangle) (e : exn) :
  parse_params h inp = Ok extras ->
  extent inp = Some r ->
  transform_extent h (extent_crs inp) r = Raise e ->
  processAlgorithm h inp = ([], Raise e).
Proof.
  intros Hx Hr He. unfold processAlgorithm, build_params.
  rewrite Hx, bind_lift_ok. unfold add_extent. now rewrite Hr, He.
Qed.

End QueryMore.

(** ** The run as a whole *)

Section Run.

Variable h : Host.
Variable inp : Inputs.

Lemma run_build_fails (t : list event) (e : exn) :
  build_params h inp = (t, Raise e) -> processAlgorithm h inp = (t, Raise e).
Proof. intros Hb. unfold processAlgorithm. now rewrite Hb. Qed.

(** What follows a successful query builder. *)
Lemma run_after_build (t : list event) (params : list (pyval * pyval)) :
  build_params h inp = (t, Ok params) ->
  let u := {| url_path := base_url ++ api_path inp; url_query := params |} in
  processAlgorithm h inp =
  match read_reply (network inp u) with
  | Raise e => ((t ++ exchange u)%list, Raise e)
  | Ok (PList (item :: rest)) =>
      ((t ++ exchange u ++ fst (emit_features h inp (item :: rest)))%list,
       snd (emit_features h inp (item :: rest)))
  | Ok _ => ((t ++ exchange u ++ [pushInfo NoItems])%list, Ok None)
  end.
Proof.
  intros Hb u. subst u. unfold processAlgorithm. rewrite Hb.
  unfold bind at 1. unfold fetch. cbv zeta.
  destruct (read_reply (network inp _)) as [data | e]; [| reflexivity].
  destruct data as [| | | | | [| item rest] |]; try reflexivity.
  destruct (emit_features h inp (item :: rest)) as [t' r] eqn:Ef.
  cbv [bind emit lift exchange]. rewrite Ef. reflexivity.
Qed.

Lemma emit_features_cases (data : list pyval) :
  emit_features h inp data =
  match sink inp with
  | None => ([parameterAsSink], Raise (QgsProcessingException InvalidOutput))
  | Some dest_id =>
      let total := Z.of_nat (List.length data) in
      (parameterAsSink :: pushInfo (ProcessingFeatures total)
         :: fst (emit_loop h inp total 0 data),
       match snd (emit_loop h inp total 0 data) with
       | Ok _ => Ok (Some dest_id)
       | Raise e => Raise e
       end)
  end.
Proof.
  unfold emit_features. rewrite bind_emit.
  destruct (sink inp) as [dest_id |]; [| reflexivity].
  rewrite bind_emit, bind_fst_snd.
  destruct (emit_loop h inp (Z.of_nat (List.length data)) 0 data) as [t [[] | e]];
    cbn [fst snd ret]; rewrite ?app_nil_r; reflexivity.
Qed.

Lemma emit_loop_emissions (total : Z) (items : list pyval) :
  forall i, forallb is_emission (fst (emit_loop h inp total i items)) = true.
Proof.
  induction items as [| item items IH]; intros i; [reflexivity |].
  rewrite emit_loop_cons.
  destruct (isCanceled inp i); [reflexivity |].
  destruct (geometry_for h item) as [[| geom] | e]; [apply IH | | reflexivity].
  destruct (attributes_for item field_definitions) as [attrs | e]; [| reflexivity].
  destruct (progress_percent i total) as [p | e]; [| reflexivity].
  cbn [fst forallb is_emission andb]. apply IH.
Qed.

Lemma build_params_stage (t : list event) (r : result (list (pyval * pyval))) :
  build_params h inp = (t, r) -> Forall (fun ev => stage ev = 0%nat) t.
Proof.
  unfold build_params. intros H.
  destruct (parse_params h inp) as [extras | e]; [| inversion H; constructor].
  rewrite bind_lift_ok in H.
  destruct (add_extent h inp extras) as [boxed | e]; [| inversion H; constructor].
  rewrite bind_lift_ok in H. unfold add_times in H.
  destruct (isValid (start_time inp)); [| inversion H; constructor].
  rewrite bind_emit in H.
  destruct (0 <? duration_minutes inp).
  - rewrite bind_emit in H. inversion H. repeat constructor.
  - inversion H. repeat constructor.
Qed.

(** X7. A transport error comes first: whatever the status code and the
    body, the operation fails with [NetworkRequestFailed] and the error
    text, after releasing the reply and without asking for the sink. *)
Theorem network_error_wins
  (t : list event) (params : list (pyval * pyval)) (why : string) :
  build_params h inp = (t, Ok params) ->
  let u := {| url_path := base_url ++ api_path inp; url_query := params |} in
  reply_error (network inp u) = Some why ->
  processAlgorithm h inp =
    ((t ++ exchange u)%list,
     Raise (QgsProcessingException (NetworkRequestFailed why))) /\
  failure_message (NetworkRequestFailed why) = "Network request failed: " ++ why.
Proof.
  intros Hb u He. split; [| reflexivity].
  rewrite (run_after_build _ _ Hb). fold u. unfold read_reply. now rewrite He.
Qed.

(** X8. A status code other than 200, or none at all, fails the operation
    with [HttpStatusError] carrying that code; the body is not read, the
    reply is released and the sink is not asked for. *)
Theorem bad_status_fails
  (t : list event) (params : list (pyval * pyval)) :
  build_params h inp = (t, Ok params) ->
  let u := {| url_path := base_url ++ api_path inp; url_query := params |} in
  reply_error (network inp u) = None ->
  status_code (network inp u) <> Some 200 ->
  processAlgorithm h inp =
    ((t ++ exchange u)%list,
     Raise (QgsProcessingException (HttpStatusError (status_code (network inp u))))).
Proof.
  intros Hb u He Hs.
  rewrite (run_after_build _ _ Hb). fold u. unfold read_reply. rewrite He.
  destruct (status_code (network inp u)) as [[| [c | c |] | c] |];
    try reflexivity.
  do 7 (destruct c as [c | c |]; try reflexivity).
  now elim Hs.
Qed.

(** X9. When decoding the body raises, a [JSONDecodeError] becomes
    [ResponseParseError] with the decoder's text, and any other exception
    (a [UnicodeDecodeError], say) leaves the operation unchanged; either way
    the reply is released and the sink is not asked for. *)
Theorem undecodable_body_fails
  (t : list event) (params : list (pyval * pyval)) (e : exn) :
  build_params h inp = (t, Ok params) ->
  let u := {| url_path := base_url ++ api_path inp; url_query := params |} in
  reply_error (network inp u) = None ->
  status_code (network inp u) = Some 200 ->
  body (network inp u) = Raise e ->
  processAlgorithm h inp =
    ((t ++ exchange u)%list,
     Raise (match e with
            | JSONDecodeError why => QgsProcessingException (ResponseParseError why)
            | _ => e
            end)).
Proof.
  intros Hb u He Hs Hbody.
  rewrite (run_after_build _ _ Hb). fold u. unfold read_reply.
  rewrite He, Hs, Hbody. destruct e; reflexivity.
Qed.

(** X10. When records arrived but [parameterAsSink] returns no sink, the
    operation fails with [InvalidOutput] right after asking: no message
    about processing, no feature, no progress. *)
Theorem missing_sink_fails
  (t : list event) (params : list (pyval * pyval)) (item : pyval) (rest : list pyval) :
  build_params h inp = (t, Ok params) ->
  let u := {| url_path := base_url ++ api_path inp; url_query := params |} in
  read_reply (network inp u) = Ok (PList (item :: rest)) ->
  sink inp = None ->
  processAlgorithm h inp =
    ((t ++ exchange u ++ [parameterAsSink])%list,
     Raise (QgsProcessingException InvalidOutput)).
Proof.
  intros Hb u Hr Hs.
  rewrite (run_after_build _ _ Hb). fold u. rewrite Hr.
  rewrite emit_features_cases, Hs. reflexivity.
Qed.

Lemma occurrences_app (kind : event -> bool) (t t' : list event) :
  occurrences kind (t ++ t') = (occurrences kind t + occurrences kind t')%nat.
Proof. unfold occurrences. now rewrite filter_app, length_app. Qed.

Lemma occurrences_none (kind other : event -> bool) (t : list event) :
  forallb other t = true ->
  (forall ev, other ev = true -> kind ev = false) ->
  occurrences kind t = 0%nat.
Proof.
  intros Hall Hdisj. unfold occurrences.
  induction t as [| ev t IH]; [reflexivity |].
  cbn [forallb] in Hall. apply andb_true_iff in Hall as [Hev Ht].
  cbn [filter]. rewrite (Hdisj ev Hev). now apply IH.
Qed.

Lemma emit_features_occurrences (kind : event -> bool) (data : list pyval) :
  kind parameterAsSink = false ->
  (forall n, kind (pushInfo n) = false) ->
  (forall ev, is_emission ev = true -> kind ev = false) ->
  occurrences kind (fst (emit_features h inp data)) = 0%nat.
Proof.
  intros Hs Hn He. rewrite emit_features_cases.
  destruct (sink inp) as [dest_id |]; unfold occurrences; cbn [fst filter].
  - rewrite Hs, Hn.
    apply (occurrences_none kind is_emission); [apply emit_loop_emissions | exact He].
  - now rewrite Hs.
Qed.

(** X11. Every run issues at most one GET and releases a reply exactly as
    often as it has issued a GET; a run that returns a result has issued one
    GET and released its reply once, and a run whose query builder fails has
    issued none. *)
Theorem one_request_one_release :
  occurrences is_reply_deleteLater (fst (processAlgorithm h inp)) =
    occurrences is_manager_get (fst (processAlgorithm h inp)) /\
  (occurrences is_manager_get (fst (processAlgorithm h inp)) <= 1)%nat /\
  (forall r, snd (processAlgorithm h inp) = Ok r ->
     occurrences is_manager_get (fst (processAlgorithm h inp)) = 1%nat) /\
  (forall e, snd (build_params h inp) = Raise e ->
     occurrences is_manager_get (fst (processAlgorithm h inp)) = 0%nat).
Proof.
  destruct (build_params h inp) as [t r] eqn:Hb. cbn [snd].
  assert (Hq : forall kind, (forall n, kind (pushInfo n) = false) ->
                            occurrences kind t = 0%nat).
  { intros kind Hn. apply (occurrences_none kind is_pushInfo).
    - eapply build_params_trace; eauto.
    - intros [] Hev; try discriminate. apply Hn. }
  pose proof (Hq is_reply_deleteLater ltac:(reflexivity)) as Hq1.
  pose proof (Hq is_manager_get ltac:(reflexivity)) as Hq2.
  destruct r as [params | e].
  - rewrite (run_after_build _ _ Hb).
    set (u := {| url_path := base_url ++ api_path inp; url_query := params |}).
    assert (Hd : forall t', occurrences is_reply_deleteLater t' = 0%nat ->
                            occurrences is_manager_get t' = 0%nat ->
                 occurrences is_reply_deleteLater (t ++ exchange u ++ t') = 1%nat /\
                 occurrences is_manager_get (t ++ exchange u ++ t') = 1%nat).
    { intros t' H1 H2. rewrite !occurrences_app, H1, H2, Hq1, Hq2.
      split; reflexivity. }
    destruct (read_reply (network inp u)) as [data | e]; cbn [fst].
    + assert (Hnone : occurrences is_reply_deleteLater
                        (t ++ exchange u ++ [pushInfo NoItems]) = 1%nat /\
                      occurrences is_manager_get
                        (t ++ exchange u ++ [pushInfo NoItems]) = 1%nat)
        by (apply Hd; reflexivity).
      assert (Hsome : forall data',
                 occurrences is_reply_deleteLater
                   (t ++ exchange u ++ fst (emit_features h inp data')) = 1%nat /\
                 occurrences is_manager_get
                   (t ++ exchange u ++ fst (emit_features h inp data')) = 1%nat).
      { intros data'. apply Hd; apply emit_features_occurrences;
          try reflexivity; intros [] Hev; try reflexivity; discriminate Hev. }
      destruct data as [| | | | | [| item rest] |]; cbn [fst];
        try (destruct Hnone as [-> ->]; repeat split; auto; discriminate).
      destruct (Hsome (item :: rest)) as [-> ->]. repeat split; auto; discriminate.
    + destruct (Hd []) as [H1 H2]; try reflexivity.
      rewrite app_nil_r in H1, H2. rewrite H1, H2. repeat split; auto; discriminate.
  - rewrite (run_build_fails _ _ Hb). cbn [fst snd].
    rewrite Hq1, Hq2. repeat split; [lia | discriminate].
Qed.

End Run.

Lemma staged_same (n : nat) (t : list event) :
  Forall (fun ev => stage ev = n) t -> staged t.
Proof.
  induction 1 as [| ev t Hev Ht IH]; constructor; [exact IH |].
  eapply Forall_impl; [| exact Ht]. cbv beta. intros ev' Hev'. lia.
Qed.

Lemma staged_app (n : nat) (t t' : list event) :
  staged t -> staged t' ->
  Forall (fun ev => (stage ev <= n)%nat) t ->
  Forall (fun ev => (n <= stage ev)%nat) t' ->
  staged (t ++ t').
Proof.
  intros Ht Ht' Hlow Hhigh. induction Ht as [| ev t Hs IH Hev]; [exact Ht' |].
  inversion Hlow as [| ? ? Hle Hlow']; subst.
  cbn [app]. constructor; [now apply IH |].
  apply Forall_app. split; [exact Hev |].
  eapply Forall_impl; [| exact Hhigh]. cbv beta. intros ev' Hev'. lia.
Qed.

Section Order.

Variable h : Host.
Variable inp : Inputs.

Lemma emit_loop_stage (total : Z) (i : nat) (items : list pyval) :
  Forall (fun ev => stage ev = 6%nat) (fst (emit_loop h inp total i items)).
Proof.
  pose proof (emit_loop_emissions h inp total items i) as H.
  rewrite forallb_forall in H. apply Forall_forall. intros ev Hin.
  specialize (H ev Hin). destruct ev; try discriminate; reflexivity.
Qed.

Lemma emit_features_staged (data : list pyval) :
  staged (fst (emit_features h inp data)) /\
  Forall (fun ev => (4 <= stage ev)%nat) (fst (emit_features h inp data)).
Proof.
  rewrite emit_features_cases.
  pose proof (emit_loop_stage (Z.of_nat (List.length data)) 0 data) as Hloop.
  destruct (sink inp) as [dest_id |]; cbn [fst].
  - split.
    + constructor; [constructor; [now apply (staged_same 6) |] |].
      * eapply Forall_impl; [| exact Hloop]. cbv beta. intros ev ->. cbn. lia.
      * constructor; [cbn; lia |].
        eapply Forall_impl; [| exact Hloop]. cbv beta. intros ev ->. cbn. lia.
    + constructor; [cbn; lia |]. constructor; [cbn; lia |].
      eapply Forall_impl; [| exact Hloop]. cbv beta. intros ev ->. lia.
  - split; repeat constructor.
Qed.

(** X12. The events of every run come in the order of the pipeline: the
    messages of the query builder, the request, the release of the reply,
    then the sink, then features and progress values. In particular the
    reply is released before the sink is asked for, and the sink is asked for
    before the first feature is written. *)
Theorem events_follow_the_pipeline : staged (fst (processAlgorithm h inp)).
Proof.
  destruct (build_params h inp) as [t r] eqn:Hb.
  pose proof (build_params_stage h inp _ _ Hb) as Ht.
  destruct r as [params | e].
  - rewrite (run_after_build _ _ _ _ Hb).
    set (u := {| url_path := base_url ++ api_path inp; url_query := params |}).
    assert (Hx : forall t', staged t' -> Forall (fun ev => (4 <= stage ev)%nat) t' ->
                            staged (t ++ exchange u ++ t')).
    { intros t' Hs Hh. apply (staged_app 0).
      - now apply (staged_same 0).
      - apply (staged_app 3); trivial.
        + unfold exchange. repeat constructor.
        + unfold exchange. repeat constructor.
        + eapply Forall_impl; [| exact Hh]. cbv beta. intros. lia.
      - eapply Forall_impl; [| exact Ht]. cbv beta. intros ev ->. lia.
      - apply Forall_forall. intros. lia. }
    destruct (read_reply (network inp u)) as [data | e]; cbn [fst].
    + assert (Hnone : staged (t ++ exchange u ++ [pushInfo NoItems]))
        by (apply Hx; repeat constructor).
      destruct data as [| | | | | [| item rest] |]; cbn [fst]; trivial.
      apply Hx; apply emit_features_staged.
    + specialize (Hx [] ltac:(constructor) ltac:(constructor)).
      now rewrite app_nil_r in Hx.
  - rewrite (run_build_fails _ _ _ _ Hb). cbn [fst]. now apply (staged_same 0).
Qed.

(** X13. The value returned under [OUTPUT] tells whether a sink was opened:
    [None] is returned only by runs that never asked for the sink, and a
    destination id only by runs that asked for it and got that very sink. *)
Theorem output_tells_the_sink (r : option string) :
  snd (processAlgorithm h inp) = Ok r ->
  match r with
  | None => ~ In parameterAsSink (fst (processAlgorithm h inp))
  | Some dest_id =>
      sink inp = Some dest_id /\ In parameterAsSink (fst (processAlgorithm h inp))
  end.
Proof.
  destruct (build_params h inp) as [t [params | e]] eqn:Hb.
  2:{ rewrite (run_build_fails _ _ _ _ Hb). discriminate. }
  pose proof (build_params_trace h inp _ _ Hb) as Ht.
  rewrite forallb_forall in Ht.
  rewrite (run_after_build _ _ _ _ Hb).
  set (u := {| url_path := base_url ++ api_path inp; url_query := params |}).
  assert (Hnone : snd ((t ++ exchange u ++ [pushInfo NoItems])%list, Ok (@None string)) = Ok r ->
                  match r with
                  | None => ~ In parameterAsSink (t ++ exchange u ++ [pushInfo NoItems])
                  | Some dest_id =>
                      sink inp = Some dest_id /\
                      In parameterAsSink (t ++ exchange u ++ [pushInfo NoItems])
                  end).
  { cbn [snd]. intros E. inversion E; subst r.
    rewrite !in_app_iff. intros [Hin | [Hin | Hin]].
    - apply Ht in Hin. discriminate.
    - unfold exchange in Hin. cbn [In] in Hin. intuition discriminate.
    - cbn [In] in Hin. intuition discriminate. }
  destruct (read_reply (network inp u)) as [data | e]; [| discriminate].
  destruct data as [| | | | | [| item rest] |]; trivial.
  cbn [fst snd]. rewrite emit_features_cases.
  destruct (sink inp) as [dest_id |]; [| discriminate].
  cbn [fst snd].
  destruct (snd (emit_loop h inp _ 0 (item :: rest))) as [[] | e]; [| discriminate].
  intros E. inversion E; subst r. split; [reflexivity |].
  rewrite !in_app_iff. right. right. now left.
Qed.

End Order.

(** ** More on the emission loop *)

Lemma subseq_nil_l {A} (l : list A) : subseq [] l.
Proof. induction l; constructor; assumption. Qed.

Lemma subseq_length {A} (kept all : list A) :
  subseq kept all -> (List.length kept <= List.length all)%nat.
Proof. induction 1; simpl; lia. Qed.

Section LoopMore.

Variable h : Host.
Variable inp : Inputs.

(** X14. The features written are the mapped records of a subsequence of the
    input, in input order: the loop never writes a record twice, never
    reorders, and never writes anything that is not a record of the reply
    mapped through the schema. *)
Theorem features_are_records_in_order (total : Z) (items : list pyval) :
  forall i,
    exists kept,
      subseq kept items /\
      Forall2 (feature_of h) kept
        (features_written (fst (emit_loop h inp total i items))).
Proof.
  induction items as [| item items IH]; intros i.
  - exists []. split; constructor.
  - rewrite emit_loop_cons.
    assert (Hstop : exists kept,
               subseq kept (item :: items) /\
               Forall2 (feature_of h) kept (features_written [])).
    { exists []. split; [apply subseq_nil_l | constructor]. }
    destruct (isCanceled inp i); [exact Hstop |].
    destruct (geometry_for h item) as [[| geom] | e] eqn:Hg; [| | exact Hstop].
    + destruct (IH (S i)) as (kept & Hsub & Hall).
      exists kept. split; [now constructor | exact Hall].
    + destruct (attributes_for item field_definitions) as [attrs | e] eqn:Ha;
        [| exact Hstop].
      assert (Hf : feature_of h item {| geometry := geom; attributes := attrs |})
        by (split; assumption).
      destruct (progress_percent i total) as [p | e].
      * destruct (IH (S i)) as (kept & Hsub & Hall).
        exists (item :: kept). split; [now constructor |].
        cbn [fst features_written]. now constructor.
      * exists [item]. split; [constructor; apply subseq_nil_l |].
        cbn [fst features_written]. constructor; [exact Hf | constructor].
Qed.

Lemma emit_loop_complete (total : Z) (items : list pyval) :
  forall i,
    Z.of_nat (i + List.length items) = total ->
    Forall (fun item => exists f, feature_of h item f) items ->
    (forall j, (i <= j < i + List.length items)%nat -> isCanceled inp j = false) ->
    snd (emit_loop h inp total i items) = Ok tt /\
    Forall2 (feature_of h) items
      (features_written (fst (emit_loop h inp total i items))) /\
    Forall2 (fun j p => progress_percent j total = Ok p)
      (seq i (List.length items))
      (progress_reported (fst (emit_loop h inp total i items))).
Proof.
  induction items as [| item items IH]; intros i Hlen Hall Hnc.
  - repeat split; constructor.
  - cbn [List.length] in Hlen.
    apply Forall_cons_iff in Hall as [(f & Hg & Ha) Hall'].
    destruct (IH (S i)) as (Hok & Hfeat & Hprog); [lia | exact Hall' | |].
    { intros j Hj. apply Hnc. cbn [List.length]. lia. }
    rewrite emit_loop_cons, (Hnc i) by (cbn [List.length]; lia).
    rewrite Hg, Ha.
    pose proof (progress_percent_spec i total ltac:(lia)) as Hp. rewrite Hp.
    cbn [fst snd features_written progress_reported List.length seq].
    repeat split; [exact Hok | |]; constructor; trivial.
    split; [exact Hg | exact Ha].
Qed.

(** X15. When no record is skipped or raises and nobody cancels, the run is
    complete: the loop ends normally, writes one feature per record, in
    order, and reports one progress value per record, the value
    [int((i + 1) / total * 100)] for the record at index [i]. *)
Theorem complete_run (data : list pyval) :
  let total := Z.of_nat (List.length data) in
  Forall (fun item => exists f, feature_of h item f) data ->
  (forall j, (j < List.length data)%nat -> isCanceled inp j = false) ->
  snd (emit_loop h inp total 0 data) = Ok tt /\
  Forall2 (feature_of h) data
    (features_written (fst (emit_loop h inp total 0 data))) /\
  Forall2 (fun i p => progress_percent i total = Ok p)
    (seq 0 (List.length data))
    (progress_reported (fst (emit_loop h inp total 0 data))).
Proof.
  intros total Hall Hnc. apply emit_loop_complete; trivial.
  intros j Hj. apply Hnc. lia.
Qed.

(** X16. When both coordinates are present, convert and reproject, the
    feature gets the reprojected point, while its [lon] and [lat] attributes
    keep the upstream values as they came (the text ['34.78'], say), not
    the converted numbers. *)
Theorem coordinates_give_geometry
  (items : list (pyval * pyval)) (lon lat : pyval) (x y : spec_float) (p : QgsPointXY) :
  dict_lookup "lon" items = Some lon -> lon <> PNone ->
  dict_lookup "lat" items = Some lat -> lat <> PNone ->
  py_float h lon = Ok x -> py_float h lat = Ok y ->
  transform_point h {| px := x; py := y |} = Ok p ->
  geometry_for h (PDict items) = Ok (Geometry (Some p)) /\
  attribute_for (PDict items) ("lon", Double) = Ok (QValue lon) /\
  attribute_for (PDict items) ("lat", Double) = Ok (QValue lat).
Proof.
  intros Hlon Hlon' Hlat Hlat' Hx Hy Hp.
  assert (Hn : forall v, v <> PNone -> is_none v = false)
    by (intros [] ?; trivial; contradiction).
  repeat split.
  - unfold geometry_for, py_get, rbind. rewrite Hlon, (Hn lon Hlon'), Hlat, (Hn lat Hlat').
    unfold point_of, rbind. now rewrite Hx, Hy, Hp.
  - unfold attribute_for, rbind, py_get.
    change (original_key (fst ("lon", Double))) with "lon".
    now rewrite Hlon, (Hn lon Hlon').
  - unfold attribute_for, rbind, py_get.
    change (original_key (fst ("lat", Double))) with "lat".
    now rewrite Hlat, (Hn lat Hlat').
Qed.

(** X17. The geometry block recovers from [ValueError] and [TypeError] only:
    any other exception of the conversion or of the reprojection (the
    [OverflowError] of [float] on an integer past the largest double, a
    [QgsCsException] of the transform) ends the loop there, with nothing
    written for the record or for those after it. *)
Theorem other_exceptions_abort
  (total : Z) (i : nat) (item lon lat : pyval) (rest : list pyval) (e : exn) :
  py_get item "lon" = Ok lon -> lon <> PNone ->
  py_get item "lat" = Ok lat -> lat <> PNone ->
  point_of h lon lat = Raise e ->
  e <> ValueError -> e <> TypeError ->
  isCanceled inp i = false ->
  emit_loop h inp total i (item :: rest) = ([], Raise e).
Proof.
  intros Hlon Hlon' Hlat Hlat' Hp Hv Ht Hrun.
  assert (Hn : forall v, v <> PNone -> is_none v = false)
    by (intros [] ?; trivial; contradiction).
  assert (Hg : geometry_for h item = Raise e).
  { unfold geometry_for, rbind. rewrite Hlon, (Hn lon Hlon'), Hlat, (Hn lat Hlat'), Hp.
    destruct e; try reflexivity; contradiction. }
  now rewrite emit_loop_cons, Hrun, Hg.
Qed.

(** X18. An element of the reply that is not an object (a number, a text, a
    list, [null]) has no [get]: the [AttributeError] ends the loop at that
    element. *)
Theorem non_object_record_aborts
  (total : Z) (i : nat) (item : pyval) (rest : list pyval) :
  (forall items, item <> PDict items) ->
  isCanceled inp i = false ->
  emit_loop h inp total i (item :: rest) = ([], Raise AttributeError).
Proof.
  intros Hitem Hrun. rewrite emit_loop_cons, Hrun.
  destruct item; try reflexivity. now elim (Hitem items).
Qed.

End LoopMore.

Lemma complete_run_witness :
  snd (emit_loop Demo.host (Demo.inputs "" PNone) 2 0 [Sample.good; Sample.odd_time])
    = Ok tt /\
  Forall2 (feature_of Demo.host) [Sample.good; Sample.odd_time]
    (features_written
       (fst (emit_loop Demo.host (Demo.inputs "" PNone) 2 0
               [Sample.good; Sample.odd_time]))) /\
  Forall2 (fun i p => progress_percent i 2 = Ok p) (seq 0 2)
    (progress_reported
       (fst (emit_loop Demo.host (Demo.inputs "" PNone) 2 0
               [Sample.good; Sample.odd_time]))).
Proof.
  apply (complete_run Demo.host (Demo.inputs "" PNone) [Sample.good; Sample.odd_time]).
  - repeat (constructor; [eexists (Build_feature _ _); split; reflexivity |]).
    constructor.
  - reflexivity.
Defined.

(** ** More on the schema *)

(** No two fields read the same upstream key. *)
Lemma original_key_injective (name name' : string) :
  In name field_names -> In name' field_names ->
  original_key name = original_key name' -> name = name'.
Proof.
  assert (Hall : forallb (fun n =>
                    forallb (fun n' =>
                               implb (String.eqb (original_key n) (original_key n'))
                                     (String.eqb n n'))
                            field_names) field_names = true) by (vm_compute; reflexivity).
  rewrite forallb_forall in Hall. intros Hn Hn' E.
  specialize (Hall name Hn). rewrite forallb_forall in Hall.
  specialize (Hall name' Hn'). rewrite E, String.eqb_refl in Hall.
  now apply String.eqb_eq.
Qed.

Lemma attribute_for_lookup (items items' : list (pyval * pyval)) (field : string * qtype) :
  dict_lookup (original_key (fst field)) items
    = dict_lookup (original_key (fst field)) items' ->
  attribute_for (PDict items) field = attribute_for (PDict items') field.
Proof. unfold attribute_for, py_get. now intros ->. Qed.

(** X19. Each output slot reads one upstream key of its own: storing a value
    under the key of one field shows in that field's slot, whatever the
    record held before, and changes no other slot. *)
Theorem slots_are_independent
  (items : list (pyval * pyval)) (field : string * qtype) (v : pyval) :
  In field field_definitions ->
  let items' := dict_set (original_key (fst field)) v items in
  attribute_for (PDict items') field
    = attribute_for (PDict [(PStr (original_key (fst field)), v)]) field /\
  forall other, In other field_definitions -> fst other <> fst field ->
    attribute_for (PDict items') other = attribute_for (PDict items) other.
Proof.
  intros Hf items'. split.
  - apply attribute_for_lookup. unfold items'.
    rewrite dict_lookup_set_same. cbn [dict_lookup key_is].
    now rewrite String.eqb_refl.
  - intros other Ho Hne. apply attribute_for_lookup. unfold items'.
    apply dict_lookup_set_other. intros E. apply Hne.
    apply original_key_injective; trivial; unfold field_names; now apply in_map.
Qed.

Lemma attributes_for_lookup (items items' : list (pyval * pyval))
  (fields : list (string * qtype)) :
  (forall field, In field fields ->
     dict_lookup (original_key (fst field)) items
       = dict_lookup (original_key (fst field)) items') ->
  attributes_for (PDict items) fields = attributes_for (PDict items') fields.
Proof.
  induction fields as [| field fields IH]; intros H; [reflexivity |].
  cbn [attributes_for].
  rewrite (attribute_for_lookup items items' field) by (apply H; now left).
  rewrite IH; [reflexivity |]. intros f Hf. apply H. now right.
Qed.

(** X20. A field of the upstream record that no output field reads is
    ignored: adding or changing it changes neither the attributes nor the
    geometry of the feature. *)
Theorem unread_fields_are_ignored
  (h : Host) (items : list (pyval * pyval)) (k : string) (v : pyval) :
  (forall name, In name field_names -> original_key name <> k) ->
  attributes_for (PDict (dict_set k v items)) field_definitions
    = attributes_for (PDict items) field_definitions /\
  geometry_for h (PDict (dict_set k v items)) = geometry_for h (PDict items).
Proof.
  intros Hk. split.
  - apply attributes_for_lookup. intros field Hf.
    apply dict_lookup_set_other. apply Hk. unfold field_names. now apply in_map.
  - assert (Hlon : dict_lookup "lon" (dict_set k v items) = dict_lookup "lon" items).
    { apply dict_lookup_set_other. apply (Hk "lon"). vm_compute. tauto. }
    assert (Hlat : dict_lookup "lat" (dict_set k v items) = dict_lookup "lat" items).
    { apply dict_lookup_set_other. apply (Hk "lat"). vm_compute. tauto. }
    unfold geometry_for, py_get. now rewrite Hlon, Hlat.
Qed.

(** ** More on the progress value *)

Lemma percent_spec_cross (a1 n1 a2 n2 : Z) :
  0 <= a1 -> 0 < n1 -> 0 < n2 -> a1 * n2 <= a2 * n1 ->
  percent_spec a1 n1 <= percent_spec a2 n2.
Proof.
  intros Ha Hn1 Hn2 Hle. unfold percent_spec.
  pose proof (pow2_pos 1120 ltac:(lia)) as Hp.
  set (X := 2 ^ 1120) in *.
  apply Z.div_le_mono; [lia |].
  assert (Hq : round53 (a1 * X) n1 <= round53 (a2 * X) n2)
    by (apply round53_mono; nia).
  pose proof (round53_nonneg (a1 * X) n1 ltac:(nia) Hn1).
  apply round53_mono; lia.
Qed.

(** On whole percentages the expression is off by at most one, downwards. *)
Lemma percent_spec_table (K : Z) :
  0 <= K <= 100 -> K - 1 <= percent_spec K 100 <= K.
Proof.
  intros HK.
  assert (Hall : forallb (fun k => let K := Z.of_nat k in
                                   (K - 1 <=? percent_spec K 100)
                                   && (percent_spec K 100 <=? K))
                         (seq 0 101) = true) by (vm_compute; reflexivity).
  rewrite forallb_forall in Hall.
  specialize (Hall (Z.to_nat K)). cbv zeta in Hall.
  rewrite Z2Nat.id in Hall by lia.
  assert (Hin : In (Z.to_nat K) (seq 0 101)) by (apply in_seq; lia).
  apply Hall in Hin. apply andb_true_iff in Hin as [H1 H2].
  apply Z.leb_le in H1, H2. lia.
Qed.

(** X21. The reported value is within one point of the exact percentage:
    never below its whole part less one, never above the exact percentage
    rounded up, for every number of records. *)
Theorem progress_within_one_point (i : nat) (total : Z) :
  Z.of_nat i < total ->
  exists p,
    progress_percent i total = Ok p /\
    100 * (Z.of_nat i + 1) / total - 1 <= p
      <= (100 * (Z.of_nat i + 1) + total - 1) / total.
Proof.
  intros Hi. exists (percent_spec (Z.of_nat i + 1) total).
  split; [now apply progress_percent_spec |].
  set (a := Z.of_nat i + 1). assert (Ha : 0 < a <= total) by lia.
  set (lo := 100 * a / total). set (hi := (100 * a + total - 1) / total).
  assert (Hlo : 0 <= lo <= 100).
  { split; [apply Z.div_pos; lia |]. apply Z.div_le_upper_bound; lia. }
  assert (Hlo' : lo * total <= 100 * a).
  { unfold lo. rewrite Z.mul_comm. apply Z.mul_div_le. lia. }
  assert (Hhi : 0 <= hi <= 100).
  { split; [apply Z.div_pos; lia |].
    assert ((100 * a + total - 1) / total < 101)
      by (apply Z.div_lt_upper_bound; lia).
    unfold hi. lia. }
  assert (Hhi' : 100 * a <= hi * total).
  { unfold hi. pose proof (Z.div_mod (100 * a + total - 1) total ltac:(lia)).
    pose proof (Z.mod_pos_bound (100 * a + total - 1) total ltac:(lia)). nia. }
  pose proof (percent_spec_table lo Hlo) as [Tlo _].
  pose proof (percent_spec_table hi Hhi) as [_ Thi].
  assert (percent_spec lo 100 <= percent_spec a total)
    by (apply percent_spec_cross; lia).
  assert (percent_spec a total <= percent_spec hi 100)
    by (apply percent_spec_cross; lia).
  lia.
Qed.

Lemma round53_below_one :
  round53 (round53 (2 ^ 1120 - 2 ^ 1067) 1 * 100) 1 / 2 ^ 1120 = 99.
Proof. vm_compute. reflexivity. Qed.

(** X22. With at most [2 ^ 53] records the value 100 is reported for the last
    record only: every earlier record reports 99 at most. *)
Theorem full_only_at_the_end (i : nat) (total : Z) :
  Z.of_nat i + 1 < total -> total <= 2 ^ 53 ->
  exists p, progress_percent i total = Ok p /\ p <= 99.
Proof.
  intros Hi Hn. exists (percent_spec (Z.of_nat i + 1) total).
  split; [apply progress_percent_spec; lia |].
  rewrite <- round53_below_one. unfold percent_spec.
  pose proof (pow2_pos 1120 ltac:(lia)) as Hp.
  pose proof (pow2_pos 1067 ltac:(lia)) as Hp'.
  assert (Hsplit : 2 ^ 1120 = 2 ^ 53 * 2 ^ 1067) by (rewrite <- Z.pow_add_r by lia; reflexivity).
  set (a := Z.of_nat i + 1) in *.
  assert (Hq : round53 (a * 2 ^ 1120) total <= round53 (2 ^ 1120 - 2 ^ 1067) 1).
  { rewrite Hsplit. set (Y := 2 ^ 1067) in *. set (W := 2 ^ 53) in *.
    apply round53_mono; nia. }
  assert (Hnn : 0 <= round53 (a * 2 ^ 1120) total).
  { apply round53_nonneg; [| lia]. set (X := 2 ^ 1120) in *. nia. }
  apply Z.div_le_mono; [lia |].
  apply round53_mono; lia.
Qed.

Section Causes.

Variable h : Host.
Variable inp : Inputs.

(** X24. The loop adds no failure of its own: when it raises, the exception
    is the one that the geometry block or the attribute mapping raised for
    one of the records; computing the progress value never raises. *)
Theorem loop_failures_come_from_records (total : Z) (items : list pyval) (e : exn) :
  forall i,
    Z.of_nat (i + List.length items) = total ->
    snd (emit_loop h inp total i items) = Raise e ->
    exists item, In item items /\
      (geometry_for h item = Raise e \/
       attributes_for item field_definitions = Raise e).
Proof.
  induction items as [| item items IH]; intros i Hlen Hr; [discriminate Hr |].
  cbn [List.length] in Hlen. rewrite emit_loop_cons in Hr.
  assert (Hrest : snd (emit_loop h inp total (S i) items) = Raise e ->
                  exists it, In it (item :: items) /\
                    (geometry_for h it = Raise e \/
                     attributes_for it field_definitions = Raise e)).
  { intros H. destruct (IH (S i) ltac:(lia) H) as (it & Hin & Hit).
    exists it. split; [now right | exact Hit]. }
  destruct (isCanceled inp i); [discriminate Hr |].
  destruct (geometry_for h item) as [[| geom] | e'] eqn:Hg.
  - auto.
  - destruct (attributes_for item field_definitions) as [attrs | e'] eqn:Ha.
    + rewrite (progress_percent_spec i total) in Hr by lia. auto.
    + inversion Hr; subst e'. exists item. split; [now left | now right].
  - inversion Hr; subst e'. exists item. split; [now left | now left].
Qed.

End Causes.

(** X25. Mapping an upstream object fails in one way only: with the
    [TypeError] of [QDateTime.fromString], on a timestamp-typed field whose
    value is neither null nor text. *)
Theorem mapping_fails_on_timestamps_only (items : list (pyval * pyval)) (e : exn) :
  attributes_for (PDict items) field_definitions = Raise e ->
  e = TypeError /\
  exists name, In (name, DateTime) field_definitions /\
               ~ text_or_null (dict_lookup (original_key name) items).
Proof.
  generalize field_definitions as fields.
  induction fields as [| [name q] fields IH]; [discriminate |].
  cbn [attributes_for]. unfold attribute_for at 1. unfold py_get, rbind.
  cbn [fst snd].
  assert (Hlater : attributes_for (PDict items) fields = Raise e ->
                   e = TypeError /\
                   exists n, In (n, DateTime) ((name, q) :: fields) /\
                             ~ text_or_null (dict_lookup (original_key n) items)).
  { intros H. destruct (IH H) as (He & n & Hin & Hn).
    split; [exact He |]. exists n. split; [now right | exact Hn]. }
  destruct (dict_lookup (original_key name) items) as [v |] eqn:Ev.
  2:{ cbn [is_none]. destruct (attributes_for (PDict items) fields); [discriminate | intros H; inversion H; subst; auto]. }
  destruct (is_none v) eqn:Hn.
  { destruct (attributes_for (PDict items) fields); [discriminate | intros H; inversion H; subst; auto]. }
  destruct (qtype_eqb q DateTime) eqn:Eq.
  - apply qtype_eqb_DateTime in Eq. subst q.
    destruct v; cbn [QDateTime_fromString]; try discriminate Hn;
      try (intros H; inversion H; subst; split; [reflexivity |];
           exists name; split; [now left | rewrite Ev; cbn; tauto]).
    destruct (attributes_for (PDict items) fields); [discriminate | intros H; inversion H; subst; auto].
  - destruct (attributes_for (PDict items) fields); [discriminate | intros H; inversion H; subst; auto].
Qed.

Lemma loop_failures_come_from_records_witness :
  exists item, In item [Sample.good; Sample.numeric_time] /\
    (geometry_for Demo.host item = Raise TypeError \/
     attributes_for item field_definitions = Raise TypeError).
Proof.
  apply (loop_failures_come_from_records Demo.host (Demo.inputs "" PNone) 2
           [Sample.good; Sample.numeric_time] TypeError 0); reflexivity.
Defined.

Lemma mapping_fails_on_timestamps_only_witness :
  TypeError = TypeError /\
  exists name, In (name, DateTime) field_definitions /\
               ~ text_or_null
                   (dict_lookup (original_key name)
                      [(PStr "lon", PNone); (PStr "recorded_at_time", PInt 5)]).
Proof.
  apply (mapping_fails_on_timestamps_only
           [(PStr "lon", PNone); (PStr "recorded_at_time", PInt 5)] TypeError).
  reflexivity.
Defined.

Lemma extra_parameters_pass_through_witness :
  dict_lookup "limit"
    [(PStr "limit", PInt 2); (PStr "recorded_at_time_from", PStr "1000");
     (PStr "recorded_at_time_to", PStr "301000")]
  = dict_lookup "limit" [(PStr "limit", PInt 2)].
Proof.
  refine (extra_parameters_pass_through Demo.host (Demo.timed "{'limit': 2}" 5)
            [(PStr "limit", PInt 2)] _
            [pushInfo (FilteringFrom (PStr "1000"));
             pushInfo (CalculatedEnd (PStr "301000"))] "limit" _ _ _);
    try reflexivity.
  unfold builder_keys. cbn [In]. intuition discriminate.
Defined.

Lemma user_keys_stay_in_front_witness :
  exists tail,
    map fst [(PStr "lon__greater_or_equal", PFloat (Demo.double 34));
             (PStr "lon__lower_or_equal", PFloat (Demo.double 35));
             (PStr "lat__greater_or_equal", PFloat (Demo.double 31));
             (PStr "lat__lower_or_equal", PFloat (Demo.double 32))]
    = (map fst [(PStr "lon__greater_or_equal", PInt 0)] ++ tail)%list.
Proof.
  refine (user_keys_stay_in_front Demo.host
            (Demo.boxed "{'lon__greater_or_equal': 0}")
            [(PStr "lon__greater_or_equal", PInt 0)] _ [] _ _);
    reflexivity.
Defined.

Lemma no_extent_no_bounds_witness :
  dict_lookup "lon__greater_or_equal"
    [(PStr "lon__greater_or_equal", PInt 0);
     (PStr "recorded_at_time_from", PStr "1000");
     (PStr "recorded_at_time_to", PStr "301000")]
  = dict_lookup "lon__greater_or_equal" [(PStr "lon__greater_or_equal", PInt 0)].
Proof.
  refine (no_extent_no_bounds Demo.host
            (Demo.timed "{'lon__greater_or_equal': 0}" 5)
            [(PStr "lon__greater_or_equal", PInt 0)] _
            [pushInfo (FilteringFrom (PStr "1000"));
             pushInfo (CalculatedEnd (PStr "301000"))] "lon__greater_or_equal"
            _ _ _ _);
    try reflexivity.
  now left.
Defined.

Lemma invalid_start_time_sets_nothing_witness :
  build_params Demo.host (Demo.boxed "{'limit': 2}") =
    ([], Ok [(PStr "limit", PInt 2);
             (PStr "lon__greater_or_equal", PFloat (Demo.double 34));
             (PStr "lon__lower_or_equal", PFloat (Demo.double 35));
             (PStr "lat__greater_or_equal", PFloat (Demo.double 31));
             (PStr "lat__lower_or_equal", PFloat (Demo.double 32))]).
Proof.
  apply (invalid_start_time_sets_nothing Demo.host (Demo.boxed "{'limit': 2}")
           [(PStr "limit", PInt 2)]); reflexivity.
Defined.

Lemma eval_exceptions_witness :
  processAlgorithm Demo.host (Demo.inputs "bad" PNone)
  = ([], Raise (OtherError "NameError")).
Proof.
  apply (eval_exceptions Demo.host (Demo.inputs "bad" PNone) (OtherError "NameError")).
  - discriminate.
  - reflexivity.
Defined.

Lemma extent_failure_aborts_before_request_witness :
  processAlgorithm Scenario.failing_host (Demo.boxed "{'limit': 2}")
  = ([], Raise QgsCsException).
Proof.
  apply (extent_failure_aborts_before_request Scenario.failing_host
           (Demo.boxed "{'limit': 2}") [(PStr "limit", PInt 2)] Demo.box);
    reflexivity.
Defined.

Lemma network_error_wins_witness :
  let inp := Scenario.replying
               {| reply_error := Some "Host not found";
                  status_code := Some 200; body := Ok (PList []) |}
               (Some "memory:output") in
  processAlgorithm Demo.host inp =
    (([] ++ exchange Scenario.bare_url)%list,
     Raise (QgsProcessingException (NetworkRequestFailed "Host not found"))) /\
  failure_message (NetworkRequestFailed "Host not found")
    = "Network request failed: " ++ "Host not found".
Proof.
  intros inp.
  apply (network_error_wins Demo.host inp [] []); reflexivity.
Defined.

Lemma bad_status_fails_witness :
  let inp := Scenario.replying
               {| reply_error := None; status_code := Some 503;
                  body := Ok (PList [Sample.good]) |}
               (Some "memory:output") in
  processAlgorithm Demo.host inp =
    (([] ++ exchange Scenario.bare_url)%list,
     Raise (QgsProcessingException (HttpStatusError (Some 503)))).
Proof.
  intros inp.
  apply (bad_status_fails Demo.host inp [] []); [reflexivity .. |].
  discriminate.
Defined.

Lemma undecodable_body_fails_witness :
  let inp := Scenario.replying
               {| reply_error := None; status_code := Some 200;
                  body := Raise (JSONDecodeError "Expecting value") |}
               (Some "memory:output") in
  processAlgorithm Demo.host inp =
    (([] ++ exchange Scenario.bare_url)%list,
     Raise (QgsProcessingException (ResponseParseError "Expecting value"))).
Proof.
  intros inp.
  apply (undecodable_body_fails Demo.host inp [] []
           (JSONDecodeError "Expecting value")); reflexivity.
Defined.

Lemma missing_sink_fails_witness :
  let inp := Scenario.replying (Demo.ok_reply (PList [Sample.good])) None in
  processAlgorithm Demo.host inp =
    (([] ++ exchange Scenario.bare_url ++ [parameterAsSink])%list,
     Raise (QgsProcessingException InvalidOutput)).
Proof.
  intros inp.
  apply (missing_sink_fails Demo.host inp [] [] Sample.good []); reflexivity.
Defined.

Lemma output_tells_the_sink_witness :
  sink (Demo.inputs "" (PList [Sample.good])) = Some "memory:output" /\
  In parameterAsSink
    (fst (processAlgorithm Demo.host (Demo.inputs "" (PList [Sample.good])))).
Proof.
  apply (output_tells_the_sink Demo.host (Demo.inputs "" (PList [Sample.good]))
           (Some "memory:output")).
  reflexivity.
Defined.

Lemma coordinates_give_geometry_witness :
  geometry_for Demo.host Sample.good
    = Ok (Geometry (Some {| px := S754_finite false 4894849844998308 (-47);
                            py := S754_finite false 4513451251555369 (-47) |})) /\
  attribute_for Sample.good ("lon", Double) = Ok (QValue (PStr "34.78")) /\
  attribute_for Sample.good ("lat", Double) = Ok (QValue (PStr "32.07")).
Proof.
  apply (coordinates_give_geometry Demo.host
           [(PStr "id", PInt 1); (PStr "lon", PStr "34.78"); (PStr "lat", PStr "32.07")]
           (PStr "34.78") (PStr "32.07")
           (S754_finite false 4894849844998308 (-47))
           (S754_finite false 4513451251555369 (-47)));
    try reflexivity; discriminate.
Defined.

Lemma other_exceptions_abort_witness :
  emit_loop Demo.host (Demo.inputs "" PNone) 2 0 [Scenario.huge_lon; Sample.good]
  = ([], Raise OverflowError).
Proof.
  apply (other_exceptions_abort Demo.host (Demo.inputs "" PNone) 2 0
           Scenario.huge_lon (PInt (10 ^ 400)) (PStr "32.07") [Sample.good]);
    try discriminate; reflexivity.
Defined.

Lemma non_object_record_aborts_witness :
  emit_loop Demo.host (Demo.inputs "" PNone) 2 0 [PInt 1; Sample.good]
  = ([], Raise AttributeError).
Proof.
  apply (non_object_record_aborts Demo.host (Demo.inputs "" PNone)).
  - discriminate.
  - reflexivity.
Defined.

Lemma slots_are_independent_witness :
  let items' := dict_set (original_key "recorded_at") (PStr "2024-01-01T00:00:00")
                  [(PStr "id", PInt 1)] in
  attribute_for (PDict items') ("recorded_at", DateTime)
    = attribute_for
        (PDict [(PStr (original_key "recorded_at"), PStr "2024-01-01T00:00:00")])
        ("recorded_at", DateTime) /\
  forall other, In other field_definitions -> fst other <> "recorded_at" ->
    attribute_for (PDict items') other
    = attribute_for (PDict [(PStr "id", PInt 1)]) other.
Proof.
  apply (slots_are_independent [(PStr "id", PInt 1)] ("recorded_at", DateTime)
           (PStr "2024-01-01T00:00:00")).
  vm_compute. tauto.
Defined.

Lemma unread_fields_are_ignored_witness :
  attributes_for (PDict (dict_set "comment" (PStr "late") [(PStr "id", PInt 1)]))
    field_definitions
  = attributes_for (PDict [(PStr "id", PInt 1)]) field_definitions /\
  geometry_for Demo.host (PDict (dict_set "comment" (PStr "late") [(PStr "id", PInt 1)]))
  = geometry_for Demo.host (PDict [(PStr "id", PInt 1)]).
Proof.
  apply (unread_fields_are_ignored Demo.host [(PStr "id", PInt 1)] "comment"
           (PStr "late")).
  intros name Hin. vm_compute in Hin.
  repeat (destruct Hin as [<- | Hin]; [discriminate |]). contradiction.
Defined.

Lemma progress_within_one_point_witness :
  exists p, progress_percent 28 100 = Ok p /\
            100 * (Z.of_nat 28 + 1) / 100 - 1 <= p
              <= (100 * (Z.of_nat 28 + 1) + 100 - 1) / 100.
Proof. apply (progress_within_one_point 28 100). reflexivity. Defined.

Lemma full_only_at_the_end_witness :
  exists p, progress_percent 998 1000 = Ok p /\ p <= 99.
Proof.
  apply (full_only_at_the_end 998 1000); [reflexivity |].
  vm_compute. discriminate.
Defined.
